(** * Bounded-concurrency executor ([bot/executors/executor.py])

    A shallow embedding of the [Executor] class: its three containers, the
    dispatch loop [run_jobs], the completion handler [update], [start],
    [stop] and [clean_up], together with the properties of the design
    document that can be stated over sequences of calls. *)

From Stdlib Require Import ZArith Lia.
From stdpp Require Import base option list gmap.

(** ** Data model *)

(** Workers are capability objects compared by identity; an object is
    represented by its identity. *)
Definition Worker : Set := nat.

#[global] Instance Worker_eq_dec : EqDecision Worker := Nat.eq_dec.
#[global] Instance Worker_countable : Countable Worker := nat_countable.

(** [StoppableThread(target=worker.start)]: a fresh handle object for every
    construction; [ident] is the object's identity. *)
Record StoppableThread : Set := mkThread { target : Worker; ident : nat }.

(** The instance attributes of [Executor.__init__].  [_pending_workers] is
    [None] until [_initialize] creates the [Queue]; the queue holds its
    items front first.  [allocated] counts the handle objects constructed so
    far and provides the identity of the next one. *)
Record Executor : Type := mkExecutor {
  _max_workers : Z;
  _pending_workers : option (list Worker);
  _running_workers : list Worker;
  _running_threads : gmap Worker StoppableThread;
  allocated : nat
}.

(** [Executor(max_workers)]. *)
Definition new (max_workers : Z) : Executor :=
  mkExecutor max_workers None [] ∅ 0.

(** Exceptions the methods can end with. *)
Inductive PyExn : Set :=
| OperationalException
| AttributeError
| KeyError.

(** Calls on collaborators, in the order they are made. *)
Inductive Event : Set :=
| EvAddObserver (worker : Worker)        (* worker.add_observer(self) *)
| EvThreadStart (thread : StoppableThread) (* thread.start() *)
| EvKill (thread : StoppableThread)      (* thread.kill() *)
| EvNotifyObservers.                     (* self.notify_observers() *)

Inductive outcome (A : Type) : Type :=
| Returned (a : A)
| Raised (e : PyExn).
Arguments Returned {A} a.
Arguments Raised {A} e.

(** ** A method body: state in, outcome, state and collaborator calls out *)

Definition Py (A : Type) : Type :=
  Executor → outcome A * Executor * list Event.

Definition ret {A} (a : A) : Py A := λ self, (Returned a, self, []).

Definition raise {A} (e : PyExn) : Py A := λ self, (Raised e, self, []).

Definition bind {A B} (m : Py A) (k : A → Py B) : Py B := λ self,
  match m self with
  | (Returned a, self1, log1) =>
      match k a self1 with
      | (r, self2, log2) => (r, self2, log1 ++ log2)
      end
  | (Raised e, self1, log1) => (Raised e, self1, log1)
  end.

Definition emit (ev : Event) : Py unit := λ self, (Returned tt, self, [ev]).

Definition get_self : Py Executor := λ self, (Returned self, self, []).

Definition put_self (self' : Executor) : Py unit :=
  λ _, (Returned tt, self', []).

(** stdpp's notations [x ← m; k] and [m;; k] are used for sequencing. *)
#[global] Instance Py_ret : MRet Py := @ret.
#[global] Instance Py_bind : MBind Py := λ A B k m, bind m k.

Definition result_of {A} (r : outcome A * Executor * list Event) : outcome A := r.1.1.
Definition state_of {A} (r : outcome A * Executor * list Event) : Executor := r.1.2.
Definition log_of {A} (r : outcome A * Executor * list Event) : list Event := r.2.

(** Attribute assignment. *)
Definition set_pending_workers (q : option (list Worker)) (self : Executor) : Executor :=
  mkExecutor (_max_workers self) q (_running_workers self)
             (_running_threads self) (allocated self).

Definition set_running_workers (l : list Worker) (self : Executor) : Executor :=
  mkExecutor (_max_workers self) (_pending_workers self) l
             (_running_threads self) (allocated self).

Definition set_running_threads (m : gmap Worker StoppableThread) (self : Executor) : Executor :=
  mkExecutor (_max_workers self) (_pending_workers self) (_running_workers self)
             m (allocated self).

Definition modify (f : Executor → Executor) : Py unit :=
  self ← get_self; put_self (f self).

(** [for x in l: body(x)] *)
Fixpoint for_each {A} (l : list A) (body : A → Py unit) : Py unit :=
  match l with
  | [] => ret tt
  | x :: l' => body x ;; for_each l' body
  end.

(** [list.remove(x)]: drops the first occurrence. *)
Fixpoint list_remove_first (x : Worker) (l : list Worker) : list Worker :=
  match l with
  | [] => []
  | y :: l' => if decide (x = y) then l' else y :: list_remove_first x l'
  end.

(** ** The methods *)

(** [Executor.clean_up] *)
Definition clean_up : Py unit :=
  modify (set_pending_workers None);;
  modify (set_running_workers []);;
  modify (set_running_threads ∅).

(** [self._pending_workers.put(worker)] *)
Definition pending_put (worker : Worker) : Py unit :=
  self ← get_self;
  match _pending_workers self with
  | None => raise AttributeError
  | Some q => put_self (set_pending_workers (Some (q ++ [worker])) self)
  end.

(** [Executor._initialize]; [workers] is what [self.create_workers()]
    returned for this call ([None] when the factory returned [None]). *)
Definition _initialize (workers : option (list Worker)) : Py unit :=
  match workers with
  | None => raise OperationalException
  | Some ws =>
      if bool_decide (ws = []) || (length ws =? 0)
      then raise OperationalException
      else
        modify (set_pending_workers (Some []));;
        for_each ws pending_put
  end.

(** One round of the [while] body of [run_jobs], for the worker taken from
    the front of the queue. *)
Definition dispatch (worker : Worker) (rest : list Worker) : Py unit :=
  modify (set_pending_workers (Some rest));;
  self ← get_self;
  let thread := mkThread worker (allocated self) in
  put_self (mkExecutor (_max_workers self) (_pending_workers self)
              (_running_workers self) (_running_threads self)
              (S (allocated self)));;
  emit (EvAddObserver worker);;
  emit (EvThreadStart thread);;
  modify (λ self, set_running_threads (<[worker := thread]> (_running_threads self)) self);;
  modify (λ self, set_running_workers (_running_workers self ++ [worker]) self).

(** The [while] loop of [run_jobs] once the queue object is known to exist:
    [queue] is the current content of [self._pending_workers]. *)
Fixpoint run_jobs_loop (worker_iteration : Z) (queue : list Worker) : Py unit :=
  match queue with
  | [] => ret tt
  | worker :: rest =>
      if (0 <? worker_iteration)%Z
      then dispatch worker rest ;; run_jobs_loop (worker_iteration - 1) rest
      else ret tt
  end.

(** [Executor.run_jobs].  The loop test evaluates [worker_iteration > 0]
    first; only when it holds is [self._pending_workers.empty()] evaluated,
    which fails on [None]. *)
Definition run_jobs : Py unit :=
  self ← get_self;
  let worker_iteration :=
    (_max_workers self - Z.of_nat (length (_running_workers self)))%Z in
  if (0 <? worker_iteration)%Z
  then match _pending_workers self with
       | None => raise AttributeError
       | Some queue => run_jobs_loop worker_iteration queue
       end
  else ret tt.

(** [Executor.start] *)
Definition start (workers : option (list Worker)) : Py unit :=
  _initialize workers;;
  run_jobs.

(** [Executor.processing] *)
Definition processing (self : Executor) : bool :=
  match _pending_workers self with
  | Some q => negb (bool_decide (q = []))
  | None => false
  end
  || (0 <? length (_running_workers self)).

(** [Executor.update] *)
Definition update (observable : Worker) : Py unit :=
  (self ← get_self;
   if bool_decide (observable ∈ _running_workers self)
   then put_self (set_running_workers
                    (list_remove_first observable (_running_workers self)) self)
   else ret tt);;
  self ← get_self;
  if negb (processing self)
  then emit EvNotifyObservers
  else run_jobs.

(** [Executor.stop_running_worker] *)
Definition stop_running_worker (worker : Worker) : Py unit :=
  self ← get_self;
  match _running_threads self !! worker with
  | None => raise KeyError
  | Some thread => emit (EvKill thread)
  end.

(** [Executor.stop] *)
Definition stop : Py unit :=
  (self ← get_self;
   for_each (_running_workers self) stop_running_worker);;
  clean_up.

(** ** Sequences of calls on one instance *)

Inductive Call : Type :=
| CallStart (workers : option (list Worker))
| CallStop
| CallCleanUp
| CallRunJobs
| CallUpdate (observable : Worker).

Definition call (c : Call) : Py unit :=
  match c with
  | CallStart workers => start workers
  | CallStop => stop
  | CallCleanUp => clean_up
  | CallRunJobs => run_jobs
  | CallUpdate observable => update observable
  end.

(** The calls are made one after the other; a call that raises leaves the
    instance as it was when the exception left the method. *)
Fixpoint calls (cs : list Call) (self : Executor) : Executor * list Event :=
  match cs with
  | [] => (self, [])
  | c :: cs' =>
      let r := call c self in
      let r' := calls cs' (state_of r) in
      (r'.1, log_of r ++ r'.2)
  end.

Inductive Reachable (N : Z) : Executor → Prop :=
| Reachable_new : Reachable N (new N)
| Reachable_call self c :
    Reachable N self → Reachable N (state_of (call c self)).

(** The workers whose handle was started, in the order of the starts. *)
Fixpoint started (log : list Event) : list Worker :=
  match log with
  | [] => []
  | EvThreadStart thread :: log' => target thread :: started log'
  | _ :: log' => started log'
  end.

(** The number of [notify_observers] calls in a log. *)
Fixpoint notifications (log : list Event) : nat :=
  match log with
  | [] => 0
  | EvNotifyObservers :: log' => S (notifications log')
  | _ :: log' => notifications log'
  end.

(** [max_workers - len(running_workers)] *)
Definition available (self : Executor) : Z :=
  (_max_workers self - Z.of_nat (length (_running_workers self)))%Z.

(** The number of workers the pending queue holds (none when unset). *)
Definition pending_count (self : Executor) : nat :=
  match _pending_workers self with
  | Some q => length q
  | None => 0
  end.

(** ** Auxiliary definitions for the statements *)

(** The number of workers the loop moves: it stops when the slots or the
    queue run out. *)
Definition moved (worker_iteration : Z) (queue : list Worker) : nat :=
  Nat.min (Z.to_nat worker_iteration) (length queue).

(** A factory result on which [_initialize] gives up. *)
Definition no_workers (workers : option (list Worker)) : Prop :=
  workers = None ∨ workers = Some [].

(** The state after the removal step of [update]. *)
Definition removed (observable : Worker) (self : Executor) : Executor :=
  if bool_decide (observable ∈ _running_workers self)
  then set_running_workers
         (list_remove_first observable (_running_workers self)) self
  else self.

(** The calls that occur during one run, between [start] and the end of
    the batch. *)
Definition during_run (c : Call) : bool :=
  match c with
  | CallRunJobs | CallUpdate _ => true
  | _ => false
  end.

(** The completion signals of a run: [update] is invoked for each worker of
    [signals] in turn; the result of every invocation is kept. *)
Fixpoint updates (signals : list Worker) (self : Executor)
  : list (outcome unit * Executor * list Event) :=
  match signals with
  | [] => []
  | w :: signals' =>
      let r := update w self in
      r :: updates signals' (state_of r)
  end.

(** A worker signals its completion only once it has been started, that is
    while it is in the running list: the executor subscribes to a worker in
    [run_jobs], just before the worker's handle is started. *)
Fixpoint each_running (signals : list Worker) (self : Executor) : bool :=
  match signals with
  | [] => true
  | w :: signals' =>
      bool_decide (w ∈ _running_workers self) &&
      each_running signals' (state_of (update w self))
  end.

(** Workers that are queued or running. *)
Definition outstanding (self : Executor) : nat :=
  pending_count self + length (_running_workers self).

(** What [run_jobs] asks of its collaborators when it starts the workers
    [ws] and the next handle object is the [n]-th: for each worker, first
    the subscription, then the start of its new handle. *)
Fixpoint dispatch_log (ws : list Worker) (n : nat) : list Event :=
  match ws with
  | [] => []
  | w :: ws' =>
      EvAddObserver w :: EvThreadStart (mkThread w n) :: dispatch_log ws' (S n)
  end.

(** The calls that reset the containers. *)
Definition resets (c : Call) : bool :=
  match c with
  | CallStop | CallCleanUp => true
  | _ => false
  end.

(** The exception a call ends with in a reachable state, if any: [start]
    without workers, and [run_jobs] with a free slot and no queue object. *)
Definition expected_error (c : Call) (self : Executor) : option PyExn :=
  match c with
  | CallStart None | CallStart (Some []) => Some OperationalException
  | CallRunJobs =>
      if (0 <? available self)%Z && bool_decide (_pending_workers self = None)
      then Some AttributeError
      else None
  | _ => None
  end.

(** What holds between the two steps of [update] and after [_initialize]:
    the slots are not over-committed, every running worker has a handle, and
    an unset queue comes with an empty running list. *)
Record Consistent (N : Z) (self : Executor) : Prop := {
  cons_max : _max_workers self = N;
  cons_bounded : (Z.of_nat (length (_running_workers self)) <= Z.max 0 N)%Z;
  cons_covered : ∀ w, w ∈ _running_workers self →
                      is_Some (_running_threads self !! w);
  cons_unset : _pending_workers self = None → _running_workers self = []
}.

(** After every call the dispatch loop has nothing left to do: the queue
    holds no worker or no slot is free. *)
Definition saturated (self : Executor) : Prop :=
  pending_count self = 0 ∨ (available self <= 0)%Z.

Record Inv (N : Z) (self : Executor) : Prop := {
  inv_consistent : Consistent N self;
  inv_saturated : saturated self
}.

(** * Properties *)

Ltac unfold_py :=
  unfold mbind, Py_bind, bind, modify, get_self, put_self, ret, raise, emit;
  simpl.

Example scenario_two_slots :
  let r := start (Some [1; 2; 3]) (new 2) in
  _running_workers (state_of r) = [1; 2] ∧
  _pending_workers (state_of r) = Some [3] ∧
  started (log_of r) = [1; 2].
Proof. vm_compute. done. Qed.

(** ** The dispatch loop *)

Lemma started_app (l1 l2 : list Event) :
  started (l1 ++ l2) = started l1 ++ started l2.
Proof.
  induction l1 as [|[] l1 IH]; simpl; auto. now rewrite IH.
Qed.

Lemma notifications_app (l1 l2 : list Event) :
  notifications (l1 ++ l2) = notifications l1 + notifications l2.
Proof.
  induction l1 as [|[] l1 IH]; simpl; auto.
Qed.

(** What one [dispatch] does. *)
Lemma dispatch_eq worker rest self :
  dispatch worker rest self =
    (Returned tt,
     mkExecutor (_max_workers self) (Some rest)
       (_running_workers self ++ [worker])
       (<[worker := mkThread worker (allocated self)]> (_running_threads self))
       (S (allocated self)),
     [EvAddObserver worker; EvThreadStart (mkThread worker (allocated self))]).
Proof. reflexivity. Qed.

Lemma run_jobs_loop_spec queue : ∀ worker_iteration self,
  _pending_workers self = Some queue →
  ∃ self' log,
    run_jobs_loop worker_iteration queue self = (Returned tt, self', log) ∧
    _max_workers self' = _max_workers self ∧
    _pending_workers self' = Some (drop (moved worker_iteration queue) queue) ∧
    _running_workers self' =
      _running_workers self ++ take (moved worker_iteration queue) queue ∧
    (∀ w, is_Some (_running_threads self' !! w) ↔
          is_Some (_running_threads self !! w) ∨
          w ∈ take (moved worker_iteration queue) queue) ∧
    started log = take (moved worker_iteration queue) queue ∧
    notifications log = 0 ∧
    (moved worker_iteration queue = 0 → self' = self ∧ log = []).
Proof.
  induction queue as [|worker rest IH]; intros wi self Hq.
  - exists self, []. unfold moved. rewrite Nat.min_0_r. simpl.
    rewrite app_nil_r. repeat split; auto; try tauto.
    intros [?|H]; [done | by apply elem_of_nil in H].
  - simpl. destruct (0 <? wi)%Z eqn:Hwi.
    + apply Z.ltb_lt in Hwi.
      assert (Hm : moved wi (worker :: rest) = S (moved (wi - 1) rest)).
      { unfold moved. simpl length.
        replace (Z.to_nat wi) with (S (Z.to_nat (wi - 1))) by lia.
        reflexivity. }
      rewrite Hm.
      unfold mbind, Py_bind, bind at 1. rewrite dispatch_eq.
      set (self1 := mkExecutor _ _ _ _ _).
      destruct (IH (wi - 1)%Z self1 eq_refl)
        as (self' & log & Hrun & Hmax & Hpend & Hrunning & Hthreads & Hlog & Hnot & _).
      rewrite Hrun. eexists _, _. split; [reflexivity|].
      simpl. rewrite Hlog, Hnot, Hmax, Hpend, Hrunning. simpl.
      rewrite <- app_assoc.
      split; [|split; [|split; [|split; [|split; [|split]]]]];
        auto; try lia.
      intros w. rewrite Hthreads. simpl.
      rewrite lookup_insert_is_Some, elem_of_cons.
      destruct (decide (worker = w)); intuition congruence.
    + apply Z.ltb_ge in Hwi.
      assert (Hm : moved wi (worker :: rest) = 0).
      { unfold moved. replace (Z.to_nat wi) with 0 by lia. reflexivity. }
      rewrite Hm. exists self, []. simpl. rewrite app_nil_r.
      repeat split; auto; try tauto.
      intros [?|H]; [done | by apply elem_of_nil in H].
Qed.

(** ** Equations of the methods *)

Lemma run_jobs_no_slot self :
  (available self <= 0)%Z → run_jobs self = (Returned tt, self, []).
Proof.
  unfold available, run_jobs. intros H. unfold_py.
  destruct (Z.ltb_spec 0 (_max_workers self - Z.of_nat (length (_running_workers self))));
    [lia | reflexivity].
Qed.

Lemma run_jobs_unset self :
  _pending_workers self = None → (0 < available self)%Z →
  run_jobs self = (Raised AttributeError, self, []).
Proof.
  unfold available, run_jobs. intros Hp H. unfold_py.
  destruct (Z.ltb_spec 0 (_max_workers self - Z.of_nat (length (_running_workers self))));
    [now rewrite Hp | lia].
Qed.

Lemma moved_no_slot wi queue : (wi <= 0)%Z → moved wi queue = 0.
Proof. unfold moved. intros H. replace (Z.to_nat wi) with 0 by lia. reflexivity. Qed.

Lemma moved_le_queue wi queue : moved wi queue ≤ length queue.
Proof. unfold moved. lia. Qed.

Lemma moved_le_slots wi queue : (0 <= wi)%Z → (Z.of_nat (moved wi queue) <= wi)%Z.
Proof. unfold moved. lia. Qed.

Lemma moved_exhausts wi queue :
  moved wi queue = length queue ∨ (wi - Z.of_nat (moved wi queue) <= 0)%Z.
Proof. unfold moved. lia. Qed.

Lemma run_jobs_queue self queue :
  _pending_workers self = Some queue →
  ∃ self' log,
    run_jobs self = (Returned tt, self', log) ∧
    _max_workers self' = _max_workers self ∧
    _pending_workers self' = Some (drop (moved (available self) queue) queue) ∧
    _running_workers self' =
      _running_workers self ++ take (moved (available self) queue) queue ∧
    (∀ w, is_Some (_running_threads self' !! w) ↔
          is_Some (_running_threads self !! w) ∨
          w ∈ take (moved (available self) queue) queue) ∧
    started log = take (moved (available self) queue) queue ∧
    notifications log = 0 ∧
    (moved (available self) queue = 0 → self' = self ∧ log = []).
Proof.
  intros Hq. destruct (Z.ltb_spec 0 (available self)) as [Hpos|Hneg].
  - destruct (run_jobs_loop_spec queue (available self) self Hq)
      as (self' & log & Hrun & Hrest).
    exists self', log. split; [|exact Hrest].
    rewrite <- Hrun. apply Z.ltb_lt in Hpos.
    unfold run_jobs, mbind, Py_bind, bind, get_self.
    fold (available self). rewrite Hpos, Hq.
    destruct (run_jobs_loop _ _ _) as [[r s] l]. reflexivity.
  - exists self, []. rewrite (run_jobs_no_slot self Hneg).
    rewrite (moved_no_slot _ _ Hneg). simpl. rewrite drop_0, app_nil_r.
    repeat split; auto; try tauto.
    intros [?|H]; [done | by apply elem_of_nil in H].
Qed.

Lemma clean_up_eq self :
  clean_up self =
    (Returned tt, mkExecutor (_max_workers self) None [] ∅ (allocated self), []).
Proof. reflexivity. Qed.

Lemma fill_queue ws : ∀ self queue,
  _pending_workers self = Some queue →
  for_each ws pending_put self =
    (Returned tt, set_pending_workers (Some (queue ++ ws)) self, []).
Proof.
  induction ws as [|w ws IH]; intros self queue Hq.
  - simpl. rewrite app_nil_r. unfold ret. f_equal. f_equal.
    destruct self; simpl in *; now subst.
  - simpl. unfold mbind, Py_bind, bind at 1. unfold pending_put at 1.
    unfold_py. rewrite Hq.
    rewrite (IH _ (queue ++ [w])) by reflexivity.
    simpl. rewrite <- app_assoc. reflexivity.
Qed.

Lemma _initialize_no_workers workers self :
  no_workers workers →
  _initialize workers self = (Raised OperationalException, self, []).
Proof. intros [->| ->]; reflexivity. Qed.

Lemma _initialize_workers ws self :
  ws ≠ [] →
  _initialize (Some ws) self =
    (Returned tt, set_pending_workers (Some ws) self, []).
Proof.
  intros Hne. unfold _initialize.
  destruct ws as [|w ws]; [done|]. simpl.
  unfold mbind, Py_bind, bind at 1. unfold_py.
  rewrite (fill_queue ws _ [w]) by reflexivity. reflexivity.
Qed.

Lemma workers_cases (workers : option (list Worker)) :
  no_workers workers ∨ ∃ ws, workers = Some ws ∧ ws ≠ [].
Proof.
  destruct workers as [[|w ws]|]; unfold no_workers; eauto.
Qed.

Lemma start_workers ws self :
  ws ≠ [] →
  start (Some ws) self = run_jobs (set_pending_workers (Some ws) self).
Proof.
  intros Hne. unfold start, mbind, Py_bind, bind.
  rewrite _initialize_workers by done.
  destruct (run_jobs _) as [[r s] l]. reflexivity.
Qed.

Lemma start_no_workers workers self :
  no_workers workers →
  start workers self = (Raised OperationalException, self, []).
Proof.
  intros H. unfold start, mbind, Py_bind, bind.
  now rewrite _initialize_no_workers.
Qed.

Lemma update_quiescent observable self :
  processing (removed observable self) = false →
  update observable self =
    (Returned tt, removed observable self, [EvNotifyObservers]).
Proof.
  intros H. unfold update, removed in *. unfold_py.
  destruct (bool_decide _); simpl in *; rewrite H; reflexivity.
Qed.

Lemma update_processing observable self :
  processing (removed observable self) = true →
  update observable self = run_jobs (removed observable self).
Proof.
  intros H. unfold update, removed in *. unfold_py.
  destruct (bool_decide _); simpl in *; rewrite H; simpl;
    destruct (run_jobs _) as [[r s] l]; reflexivity.
Qed.

Lemma removed_absent observable self :
  observable ∉ _running_workers self → removed observable self = self.
Proof.
  intros H. unfold removed. now rewrite bool_decide_eq_false_2.
Qed.

Lemma list_remove_first_length x l :
  x ∈ l → S (length (list_remove_first x l)) = length l.
Proof.
  induction l as [|y l IH]; intros H; [by apply elem_of_nil in H|].
  simpl. destruct (decide (x = y)); [reflexivity|].
  simpl. f_equal. apply IH. apply elem_of_cons in H as [?|?]; [done|auto].
Qed.

Lemma list_remove_first_subseteq x l : list_remove_first x l ⊆ l.
Proof.
  induction l as [|y l IH]; simpl; [done|].
  destruct (decide (x = y)).
  - intros z Hz. apply elem_of_cons. by right.
  - intros z Hz. apply elem_of_cons in Hz as [->|Hz];
      [apply elem_of_cons; by left | apply elem_of_cons; right; by apply IH].
Qed.

(** The [for] loop of [stop] only reads the instance. *)
Lemma stop_loop_state l : ∀ self,
  state_of (for_each l stop_running_worker self) = self.
Proof.
  induction l as [|w l IH]; intros self; [reflexivity|].
  simpl. unfold mbind, Py_bind, bind at 1. unfold stop_running_worker at 1.
  unfold_py. destruct (_running_threads self !! w); simpl; [|reflexivity].
  specialize (IH self).
  destruct (for_each l stop_running_worker self) as [[r self'] lg].
  exact IH.
Qed.

Lemma stop_loop_kills l : ∀ self,
  (∀ w, w ∈ l → is_Some (_running_threads self !! w)) →
  ∃ threads,
    Forall2 (λ w thread, _running_threads self !! w = Some thread) l threads ∧
    for_each l stop_running_worker self = (Returned tt, self, EvKill <$> threads).
Proof.
  induction l as [|w l IH]; intros self Hcov.
  - exists []. split; [constructor | reflexivity].
  - destruct (Hcov w) as [thread Hw]; [set_solver|].
    destruct (IH self) as (threads & Hall & Hrun); [set_solver|].
    exists (thread :: threads). split; [by constructor|].
    simpl. unfold mbind, Py_bind, bind at 1. unfold stop_running_worker at 1.
    unfold_py. rewrite Hw, Hrun. reflexivity.
Qed.

(** ** Invariants of the reachable states *)

Lemma new_inv N : Inv N (new N).
Proof.
  split; [split|]; simpl; auto; try lia.
  - intros w H. by apply elem_of_nil in H.
  - by left.
Qed.

Lemma run_jobs_inv N self :
  Consistent N self → Inv N (state_of (run_jobs self)).
Proof.
  intros [Hmax Hb Hc Hu].
  destruct (_pending_workers self) as [queue|] eqn:Hq.
  - destruct (run_jobs_queue self queue Hq)
      as (self' & log & Hrun & Hmax' & Hpend & Hrunning & Hthreads & _).
    rewrite Hrun. unfold state_of. simpl.
    pose proof (moved_le_queue (available self) queue) as Hle.
    pose proof (moved_exhausts (available self) queue) as Hex.
    assert (Hslots : (available self <= 0)%Z ∧ moved (available self) queue = 0 ∨
                     (Z.of_nat (moved (available self) queue) <= available self)%Z).
    { destruct (Z.le_gt_cases (available self) 0) as [H0|H0].
      - left. split; [done | by apply moved_no_slot].
      - right. apply moved_le_slots. lia. }
    set (m := moved (available self) queue) in *.
    assert (Hlen : length (_running_workers self') =
                   length (_running_workers self) + m).
    { rewrite Hrunning, length_app, length_take. lia. }
    assert (Hav : available self' = (available self - Z.of_nat m)%Z).
    { unfold available. rewrite Hmax', Hlen. lia. }
    split; [split|].
    + congruence.
    + rewrite Hlen. unfold available in Hslots. lia.
    + intros w. rewrite Hrunning, elem_of_app, Hthreads.
      intros [?|?]; [left; by apply Hc | by right].
    + rewrite Hpend. discriminate.
    + unfold saturated, pending_count.
      rewrite Hpend, length_drop, Hav. lia.
  - specialize (Hu eq_refl).
    assert (Hst : state_of (run_jobs self) = self).
    { destruct (Z.le_gt_cases (available self) 0) as [H0|H0].
      - now rewrite run_jobs_no_slot.
      - now rewrite run_jobs_unset by (auto; lia). }
    rewrite Hst. split; [split|]; auto.
    left. unfold pending_count. now rewrite Hq.
Qed.

Lemma removed_consistent N observable self :
  Consistent N self → Consistent N (removed observable self).
Proof.
  intros [Hmax Hb Hc Hu]. unfold removed.
  destruct (bool_decide_reflect (observable ∈ _running_workers self)) as [Hin|Hin];
    [|by split].
  split; simpl; auto.
  - pose proof (list_remove_first_length _ _ Hin). lia.
  - intros w Hw. apply Hc. by apply (list_remove_first_subseteq observable).
  - intros Hnone. rewrite (Hu Hnone) in Hin. by apply elem_of_nil in Hin.
Qed.

Lemma quiescent_saturated self : processing self = false → saturated self.
Proof.
  unfold processing, saturated, pending_count. intros H.
  apply orb_false_iff in H as [H _]. left.
  destruct (_pending_workers self) as [q|]; [|reflexivity].
  apply negb_false_iff, bool_decide_eq_true in H. now subst.
Qed.

Lemma update_inv N observable self :
  Inv N self → Inv N (state_of (update observable self)).
Proof.
  intros [Hcons _].
  pose proof (removed_consistent N observable self Hcons) as Hrem.
  destruct (processing (removed observable self)) eqn:Hproc.
  - rewrite update_processing by done. by apply run_jobs_inv.
  - rewrite update_quiescent by done. split; [done|].
    by apply quiescent_saturated.
Qed.

Lemma reset_inv N self :
  _max_workers self = N →
  Inv N (mkExecutor (_max_workers self) None [] ∅ (allocated self)).
Proof.
  intros Hmax. split; [split|]; simpl; auto; try lia.
  - intros w H. by apply elem_of_nil in H.
  - by left.
Qed.

Lemma clean_up_inv N self : Inv N self → Inv N (state_of (clean_up self)).
Proof. intros [[Hmax _ _ _] _]. rewrite clean_up_eq. by apply reset_inv. Qed.

Lemma stop_eq self :
  stop self =
    match for_each (_running_workers self) stop_running_worker self with
    | (Returned _, self1, log1) =>
        (Returned tt,
         mkExecutor (_max_workers self1) None [] ∅ (allocated self1), log1 ++ [])
    | (Raised e, self1, log1) => (Raised e, self1, log1)
    end.
Proof.
  unfold stop, clean_up. unfold_py.
  destruct (for_each _ _ self) as [[[[]|e] self1] log1]; reflexivity.
Qed.

Lemma stop_state self :
  state_of (stop self) = self ∨
  state_of (stop self) = mkExecutor (_max_workers self) None [] ∅ (allocated self).
Proof.
  rewrite stop_eq.
  pose proof (stop_loop_state (_running_workers self) self) as Hst.
  destruct (for_each _ _ self) as [[[[]|e] self1] log1];
    unfold state_of in *; simpl in *; subst self1; auto.
Qed.

Lemma stop_inv N self : Inv N self → Inv N (state_of (stop self)).
Proof.
  intros Hinv. destruct (stop_state self) as [-> | ->]; [done|].
  apply reset_inv. apply Hinv.
Qed.

Lemma start_inv N workers self :
  Inv N self → Inv N (state_of (start workers self)).
Proof.
  intros Hinv. destruct (workers_cases workers) as [Hno|(ws & -> & Hne)].
  - now rewrite start_no_workers.
  - rewrite start_workers by done. apply run_jobs_inv.
    destruct Hinv as [[Hmax Hb Hc Hu] _]. by split.
Qed.

Lemma call_inv N c self : Inv N self → Inv N (state_of (call c self)).
Proof.
  intros Hinv. destruct c; simpl.
  - by apply start_inv.
  - by apply stop_inv.
  - by apply clean_up_inv.
  - apply run_jobs_inv, Hinv.
  - by apply update_inv.
Qed.

Lemma Reachable_inv N self : Reachable N self → Inv N self.
Proof.
  induction 1 as [|self c _ IH]; [apply new_inv | by apply call_inv].
Qed.

(** ** The concurrency ceiling *)

Lemma run_jobs_started_le self :
  (0 <= available self)%Z →
  (Z.of_nat (length (started (log_of (run_jobs self)))) <= available self)%Z.
Proof.
  intros Hav. destruct (_pending_workers self) as [queue|] eqn:Hq.
  - destruct (run_jobs_queue self queue Hq)
      as (self' & log & Hrun & _ & _ & _ & _ & Hlog & _).
    rewrite Hrun. unfold log_of. simpl. rewrite Hlog, length_take.
    pose proof (moved_le_slots (available self) queue Hav). lia.
  - destruct (Z.le_gt_cases (available self) 0) as [H0|H0].
    + rewrite run_jobs_no_slot by done. simpl. lia.
    + rewrite run_jobs_unset by (auto; lia). simpl. lia.
Qed.

(** C1, as stated, fails for a negative [max_workers]: the constructor
    accepts any integer, and the running list of [Executor(-1)] has length
    0, which exceeds -1. *)
Lemma ceiling_fails_for_negative_max_workers :
  ¬ (∀ N self, Reachable N self →
       (Z.of_nat (length (_running_workers self)) <= N)%Z).
Proof.
  intros H. specialize (H (-1)%Z (new (-1)) (Reachable_new _)).
  simpl in H. lia.
Qed.

(** What one [run_jobs] call does to the running list, in whatever state
    it is made (directly, by [start] after [_initialize], or by [update]
    after its removal): the workers it starts are appended, and there are
    no more of them than workers queued nor than free slots. *)
Lemma run_jobs_effect s :
  _running_workers (state_of (run_jobs s)) =
    _running_workers s ++ started (log_of (run_jobs s)) ∧
  length (started (log_of (run_jobs s))) ≤ pending_count s ∧
  (Z.of_nat (length (started (log_of (run_jobs s)))) <= Z.max 0 (available s))%Z.
Proof.
  destruct (_pending_workers s) as [queue|] eqn:Hq.
  - destruct (run_jobs_queue s queue Hq)
      as (s' & log & Hrun & _ & _ & Hrunning & _ & Hlog & _).
    rewrite Hrun. unfold state_of, log_of, pending_count. simpl.
    rewrite Hq, Hlog, Hrunning, length_take. unfold moved.
    split; [reflexivity|]. lia.
  - assert (Hsame : state_of (run_jobs s) = s ∧ log_of (run_jobs s) = []).
    { destruct (Z.le_gt_cases (available s) 0) as [H0|H0].
      - now rewrite run_jobs_no_slot.
      - now rewrite run_jobs_unset by (auto; lia). }
    destruct Hsame as [-> ->]. simpl. rewrite app_nil_r.
    split; [reflexivity|]. lia.
Qed.

Lemma list_remove_first_absent x l : x ∉ l → list_remove_first x l = l.
Proof.
  induction l as [|y l IH]; intros H; [reflexivity|].
  simpl. apply not_elem_of_cons in H as [Hne H].
  destruct (decide (x = y)); [done|]. by rewrite IH.
Qed.

Lemma removed_running observable s :
  _running_workers (removed observable s) =
    list_remove_first observable (_running_workers s).
Proof.
  unfold removed.
  destruct (bool_decide_reflect (observable ∈ _running_workers s)) as [Hin|Hin];
    [reflexivity|]. by rewrite list_remove_first_absent.
Qed.

Lemma list_remove_first_le x l :
  length (list_remove_first x l) ≤ length l ∧
  (x ∈ l → S (length (list_remove_first x l)) = length l).
Proof.
  split; [|apply list_remove_first_length].
  destruct (decide (x ∈ l)) as [Hin|Hin].
  - pose proof (list_remove_first_length x l Hin). lia.
  - by rewrite list_remove_first_absent.
Qed.

(** What one [update] call does to the running list, in whatever state:
    the first occurrence of its worker is taken out, and what the
    [run_jobs] it may call starts is appended. *)
Lemma update_effect observable s :
  _running_workers (state_of (update observable s)) =
    list_remove_first observable (_running_workers s) ++
    started (log_of (update observable s)) ∧
  length (started (log_of (update observable s))) ≤ pending_count s ∧
  (Z.of_nat (length (started (log_of (update observable s)))) <=
     Z.max 0 (_max_workers s -
              Z.of_nat (length (list_remove_first observable (_running_workers s)))))%Z.
Proof.
  rewrite <- removed_running.
  assert (Hpc : pending_count (removed observable s) = pending_count s)
    by (unfold removed, pending_count; by destruct (bool_decide _)).
  assert (Hmax : _max_workers (removed observable s) = _max_workers s)
    by (unfold removed; by destruct (bool_decide _)).
  destruct (processing (removed observable s)) eqn:Hproc.
  - rewrite update_processing by done.
    pose proof (run_jobs_effect (removed observable s)) as (Hrun & Hle & Hslots).
    unfold available in Hslots. rewrite Hmax in Hslots. rewrite Hpc in Hle.
    done.
  - rewrite update_quiescent by done. unfold state_of, log_of. simpl.
    rewrite app_nil_r. split; [reflexivity|]. lia.
Qed.

(** C1 (amended): for every configured [max_workers] N that is not negative
    and every state reached from [Executor(N)] by any sequence of [start],
    [run_jobs], [update], [stop] and [clean_up] calls, the running list is
    never longer than N.  The two reasons the claim gives hold as well.
    [run_jobs] dispatches at most N - |running| workers per call: in every
    state within the ceiling, which are the states in which [start] and
    [update] call it, what it appends to the running list is what it
    starts, at most N - |running| workers; so [start] starts at most
    N - |running| workers.  And [update] only removes: it takes out the
    first occurrence of its worker, what it then starts through [run_jobs]
    is within N - |remaining|, and the running list is never longer after
    an [update] than before it. *)
Theorem running_workers_never_exceed_max_workers N self :
  (0 <= N)%Z → Reachable N self →
  (Z.of_nat (length (_running_workers self)) <= N)%Z ∧
  (∀ s, _max_workers s = N →
        (Z.of_nat (length (_running_workers s)) <= N)%Z →
        _running_workers (state_of (run_jobs s)) =
          _running_workers s ++ started (log_of (run_jobs s)) ∧
        (Z.of_nat (length (started (log_of (run_jobs s)))) <=
           N - Z.of_nat (length (_running_workers s)))%Z) ∧
  (∀ workers,
     (Z.of_nat (length (started (log_of (start workers self)))) <=
        N - Z.of_nat (length (_running_workers self)))%Z ∧
     _running_workers (state_of (start workers self)) =
       _running_workers self ++ started (log_of (start workers self))) ∧
  (∀ w,
     _running_workers (state_of (update w self)) =
       list_remove_first w (_running_workers self) ++
       started (log_of (update w self)) ∧
     (Z.of_nat (length (started (log_of (update w self)))) <=
        N - Z.of_nat (length (list_remove_first w (_running_workers self))))%Z ∧
     length (list_remove_first w (_running_workers self)) ≤
       length (_running_workers self) ∧
     length (_running_workers (state_of (update w self))) ≤
       length (_running_workers self)).
Proof.
  intros HN Hreach.
  destruct (Reachable_inv N self Hreach) as [[Hmax Hb _ _] Hsat].
  assert (Hlen : (Z.of_nat (length (_running_workers self)) <= N)%Z) by lia.
  assert (Hrj : ∀ s, _max_workers s = N →
            (Z.of_nat (length (_running_workers s)) <= N)%Z →
            _running_workers (state_of (run_jobs s)) =
              _running_workers s ++ started (log_of (run_jobs s)) ∧
            (Z.of_nat (length (started (log_of (run_jobs s)))) <=
               N - Z.of_nat (length (_running_workers s)))%Z).
  { intros s Hs Hle. destruct (run_jobs_effect s) as (Heq & _ & Hslots).
    split; [exact Heq|]. unfold available in Hslots. lia. }
  split; [exact Hlen|]. split; [exact Hrj|]. split.
  - intros workers. destruct (workers_cases workers) as [Hno|(ws & -> & Hne)].
    + rewrite start_no_workers by done. unfold state_of, log_of. simpl.
      rewrite app_nil_r. split; [lia | reflexivity].
    + rewrite start_workers by done.
      destruct (Hrj (set_pending_workers (Some ws) self) Hmax Hlen) as [Heq Hle].
      split; [exact Hle | exact Heq].
  - intros w. destruct (update_effect w self) as (Heq & Hpc & Hslots).
    destruct (list_remove_first_le w (_running_workers self)) as [Hle Hin].
    rewrite Hmax in Hslots.
    split; [exact Heq|]. split; [lia|]. split; [exact Hle|].
    rewrite Heq, length_app.
    unfold saturated, available in Hsat. rewrite Hmax in Hsat.
    destruct (decide (w ∈ _running_workers self)) as [Hw|Hw].
    + specialize (Hin Hw). lia.
    + rewrite (list_remove_first_absent _ _ Hw) in *. lia.
Qed.

Lemma running_workers_never_exceed_max_workers_witness :
  let self := state_of (call (CallUpdate 1)
                (state_of (call (CallStart (Some [1; 2; 3])) (new 2)))) in
  (Z.of_nat (length (_running_workers self)) <= 2)%Z ∧
  (∀ s, _max_workers s = 2%Z →
        (Z.of_nat (length (_running_workers s)) <= 2)%Z →
        _running_workers (state_of (run_jobs s)) =
          _running_workers s ++ started (log_of (run_jobs s)) ∧
        (Z.of_nat (length (started (log_of (run_jobs s)))) <=
           2 - Z.of_nat (length (_running_workers s)))%Z) ∧
  (∀ workers,
     (Z.of_nat (length (started (log_of (start workers self)))) <=
        2 - Z.of_nat (length (_running_workers self)))%Z ∧
     _running_workers (state_of (start workers self)) =
       _running_workers self ++ started (log_of (start workers self))) ∧
  (∀ w,
     _running_workers (state_of (update w self)) =
       list_remove_first w (_running_workers self) ++
       started (log_of (update w self)) ∧
     (Z.of_nat (length (started (log_of (update w self)))) <=
        2 - Z.of_nat (length (list_remove_first w (_running_workers self))))%Z ∧
     length (list_remove_first w (_running_workers self)) ≤
       length (_running_workers self) ∧
     length (_running_workers (state_of (update w self))) ≤
       length (_running_workers self)).
Proof.
  apply (running_workers_never_exceed_max_workers 2).
  - lia.
  - apply Reachable_call, Reachable_call, Reachable_new.
Defined.

(** The bound is not idle: calls that find a free slot do dispatch. *)
Example ceiling_is_reached :
  started (log_of (start (Some [1; 2; 3]) (new 2))) = [1; 2] ∧
  (let self := state_of (start (Some [1; 2; 3]) (new 2)) in
   _running_workers self = [1; 2] ∧
   started (log_of (update 1 self)) = [3] ∧
   _running_workers (state_of (update 1 self)) = [2; 3]) ∧
  started (log_of (run_jobs (mkExecutor 2 (Some [5; 6; 7]) [4] ∅ 0))) = [5].
Proof. repeat split. Qed.

(** ** An empty factory result *)

(** C3: when [create_workers] returns [None] or an empty list, [start]
    raises [OperationalException] before anything else happens: no
    collaborator is called (nothing is dispatched) and the instance is left
    exactly as it was, so a running list that was empty and a queue that
    held no worker are still so afterwards. *)
Theorem start_without_workers_raises workers self :
  no_workers workers →
  start workers self = (Raised OperationalException, self, []) ∧
  (_running_workers self = [] → pending_count self = 0 →
   _running_workers (state_of (start workers self)) = [] ∧
   pending_count (state_of (start workers self)) = 0).
Proof.
  intros Hno. rewrite start_no_workers by done. split; [reflexivity|].
  unfold state_of. simpl. auto.
Qed.

Lemma start_without_workers_raises_witness :
  start (Some []) (new 5) = (Raised OperationalException, new 5, []) ∧
  (_running_workers (new 5) = [] → pending_count (new 5) = 0 →
   _running_workers (state_of (start (Some []) (new 5))) = [] ∧
   pending_count (state_of (start (Some []) (new 5))) = 0).
Proof.
  apply (start_without_workers_raises (Some []) (new 5)).
  right. reflexivity.
Defined.

(** ** Running workers and their handles *)

(** C4 fails on the code: [update] takes the finished worker out of
    [_running_workers] and leaves its entry in [_running_threads].  With
    [max_workers = 1] and the factory result [[7]], after [start()] and
    [update(7)] the running list is empty and the mapping still holds the
    handle of worker 7. *)
Theorem update_leaves_handle_behind :
  let self := (calls [CallStart (Some [7]); CallUpdate 7] (new 1)).1 in
  Reachable 1 self ∧
  _running_workers self = [] ∧
  _running_threads self !! 7 = Some (mkThread 7 0).
Proof.
  split; [|split].
  - apply (Reachable_call 1 _ (CallUpdate 7)).
    apply (Reachable_call 1 _ (CallStart (Some [7]))).
    apply Reachable_new.
  - reflexivity.
  - reflexivity.
Qed.

(** The half of the correspondence that does hold in every reachable
    state: a running worker always has a handle. *)
Lemma running_worker_has_handle N self w :
  Reachable N self → w ∈ _running_workers self →
  is_Some (_running_threads self !! w).
Proof. intros Hreach. apply (Reachable_inv N self Hreach). Qed.

(** ** Completion signals for workers that are not running *)

Lemma processing_false_iff self :
  processing self = false ↔
  pending_count self = 0 ∧ _running_workers self = [].
Proof.
  unfold processing, pending_count.
  destruct (_pending_workers self) as [[|w q]|];
    destruct (_running_workers self) as [|w' l]; simpl;
    intuition (discriminate || auto).
Qed.

(** In a reachable state [run_jobs], when it is called from [update], finds
    nothing to move. *)
Lemma run_jobs_saturated N self :
  Inv N self → processing self = true →
  run_jobs self = (Returned tt, self, []).
Proof.
  intros [[_ _ _ Hu] Hsat] Hproc.
  destruct (Z.le_gt_cases (available self) 0) as [H0|H0];
    [by apply run_jobs_no_slot|].
  destruct Hsat as [Hcount|?]; [|lia].
  destruct (_pending_workers self) as [queue|] eqn:Hq.
  - destruct (run_jobs_queue self queue Hq)
      as (self' & log & Hrun & _ & _ & _ & _ & _ & _ & Hnop).
    unfold pending_count in Hcount. rewrite Hq in Hcount.
    destruct Hnop as [-> ->]; [|exact Hrun].
    unfold moved. lia.
  - assert (processing self = false) as Hfalse; [|congruence].
    apply processing_false_iff. auto.
Qed.

Lemma update_absent N observable self :
  Inv N self → observable ∉ _running_workers self →
  result_of (update observable self) = Returned tt ∧
  state_of (update observable self) = self.
Proof.
  intros Hinv Hnot.
  pose proof (removed_absent observable self Hnot) as Hrem.
  destruct (processing self) eqn:Hproc.
  - rewrite update_processing by (now rewrite Hrem).
    rewrite Hrem, (run_jobs_saturated N) by done. done.
  - rewrite update_quiescent by (now rewrite Hrem).
    rewrite Hrem. done.
Qed.

(** C5: in every reachable state, [update(w)] for a worker [w] that is not
    in the running list returns without an error and leaves the instance as
    it was, in particular the running list and the number of available
    slots; a second [update(w)] changes the running list no further. *)
Theorem update_of_absent_worker_is_idempotent N self w :
  Reachable N self → w ∉ _running_workers self →
  result_of (update w self) = Returned tt ∧
  _running_workers (state_of (update w self)) = _running_workers self ∧
  available (state_of (update w self)) = available self ∧
  result_of (update w (state_of (update w self))) = Returned tt ∧
  _running_workers (state_of (update w (state_of (update w self)))) =
    _running_workers (state_of (update w self)).
Proof.
  intros Hreach Hnot.
  destruct (update_absent N w self (Reachable_inv N self Hreach) Hnot)
    as [Hres Hst].
  rewrite !Hst, Hres. done.
Qed.

Lemma update_of_absent_worker_is_idempotent_witness :
  let self := state_of (call (CallStart (Some [1; 2; 3])) (new 2)) in
  result_of (update 3 self) = Returned tt ∧
  _running_workers (state_of (update 3 self)) = _running_workers self ∧
  available (state_of (update 3 self)) = available self ∧
  result_of (update 3 (state_of (update 3 self))) = Returned tt ∧
  _running_workers (state_of (update 3 (state_of (update 3 self)))) =
    _running_workers (state_of (update 3 self)).
Proof.
  apply (update_of_absent_worker_is_idempotent 2).
  - apply Reachable_call, Reachable_new.
  - vm_compute. intros H. repeat (apply elem_of_cons in H as [H|H]; [discriminate|]).
    by apply elem_of_nil in H.
Defined.

(** A completion signal delivered twice: the second one finds the worker
    gone and leaves the running list, already replenished, alone. *)
Example duplicate_signal :
  let self := state_of (start (Some [1; 2]) (new 1)) in
  _running_workers self = [1] ∧
  _running_workers (state_of (update 1 self)) = [2] ∧
  update 1 (state_of (update 1 self)) =
    (Returned tt, state_of (update 1 self), []).
Proof. repeat split. Qed.

(** ** [run_jobs] with nothing to do *)

(** C6 fails on the code when the queue object is unset and a slot is free:
    on a new [Executor(1)], which also is the state after [clean_up], the
    queue holds no worker, and [run_jobs()] ends with [AttributeError]
    ([None] has no [empty]) instead of returning. *)
Theorem run_jobs_raises_on_unset_queue :
  pending_count (new 1) = 0 ∧
  new 1 = state_of (clean_up (new 1)) ∧
  run_jobs (new 1) = (Raised AttributeError, new 1, []).
Proof. repeat split. Qed.

(** With the queue object in place, or without a free slot, [run_jobs] is
    the no-op the design asks for. *)
Lemma run_jobs_nothing_to_do self :
  _pending_workers self = Some [] ∨ (available self <= 0)%Z →
  run_jobs self = (Returned tt, self, []).
Proof.
  intros [Hq|Hav]; [|by apply run_jobs_no_slot].
  destruct (run_jobs_queue self [] Hq)
    as (self' & log & Hrun & _ & _ & _ & _ & _ & _ & Hnop).
  destruct Hnop as [-> ->]; [|exact Hrun].
  unfold moved. simpl. lia.
Qed.

(** ** [stop] *)

(** C8: in every reachable state [stop()] returns without an error, calls
    [kill] on the handle recorded for each worker of the running list, in
    the order of the list, and leaves the queue unset, the running list
    empty and the handle mapping empty. *)
Theorem stop_kills_running_and_resets N self :
  Reachable N self →
  ∃ threads,
    Forall2 (λ w thread, _running_threads self !! w = Some thread)
            (_running_workers self) threads ∧
    result_of (stop self) = Returned tt ∧
    log_of (stop self) = EvKill <$> threads ∧
    _pending_workers (state_of (stop self)) = None ∧
    pending_count (state_of (stop self)) = 0 ∧
    _running_workers (state_of (stop self)) = [] ∧
    _running_threads (state_of (stop self)) = ∅.
Proof.
  intros Hreach.
  destruct (Reachable_inv N self Hreach) as [[_ _ Hcov _] _].
  destruct (stop_loop_kills (_running_workers self) self Hcov)
    as (threads & Hall & Hrun).
  exists threads. split; [exact Hall|].
  rewrite stop_eq, Hrun. unfold result_of, log_of, state_of. simpl.
  rewrite app_nil_r. done.
Qed.

Lemma stop_kills_running_and_resets_witness :
  let self := state_of (call (CallStart (Some [1; 2; 3])) (new 2)) in
  ∃ threads,
    Forall2 (λ w thread, _running_threads self !! w = Some thread)
            (_running_workers self) threads ∧
    result_of (stop self) = Returned tt ∧
    log_of (stop self) = EvKill <$> threads ∧
    _pending_workers (state_of (stop self)) = None ∧
    pending_count (state_of (stop self)) = 0 ∧
    _running_workers (state_of (stop self)) = [] ∧
    _running_threads (state_of (stop self)) = ∅.
Proof.
  apply (stop_kills_running_and_resets 2).
  apply Reachable_call, Reachable_new.
Defined.

Example stop_with_nothing_running :
  stop (new 3) = (Returned tt, new 3, []).
Proof. reflexivity. Qed.

Example stop_mid_run :
  log_of (stop (state_of (start (Some [1; 2; 3]) (new 2)))) =
    [EvKill (mkThread 1 0); EvKill (mkThread 2 1)].
Proof. reflexivity. Qed.

(** ** Notifications after the batch has drained *)

Lemma update_when_idle observable self :
  processing self = false →
  update observable self = (Returned tt, self, [EvNotifyObservers]).
Proof.
  intros Hproc.
  assert (Hnot : observable ∉ _running_workers self).
  { apply processing_false_iff in Hproc as [_ ->]. apply not_elem_of_nil. }
  rewrite update_quiescent; rewrite (removed_absent _ _ Hnot); done.
Qed.

(** C10: whenever [processing] is false, an [update] call, for whatever
    worker, calls [notify_observers] once more and changes nothing; so any
    number of completion signals arriving in such a state produce as many
    notifications. *)
Theorem idle_update_notifies_again self :
  processing self = false →
  (∀ w, update w self = (Returned tt, self, [EvNotifyObservers])) ∧
  (∀ signals : list Worker,
     calls (CallUpdate <$> signals) self =
       (self, replicate (length signals) EvNotifyObservers)).
Proof.
  intros Hproc. split; [intros w; by apply update_when_idle|].
  induction signals as [|w signals IH]; [reflexivity|].
  change (calls (CallUpdate <$> w :: signals) self)
    with (let r := update w self in
          let r' := calls (CallUpdate <$> signals) (state_of r) in
          (r'.1, log_of r ++ r'.2)).
  rewrite update_when_idle by done.
  unfold state_of, log_of. simpl. rewrite IH. reflexivity.
Qed.

Lemma idle_update_notifies_again_witness :
  let self := state_of (update 1 (state_of (start (Some [1]) (new 1)))) in
  (∀ w, update w self = (Returned tt, self, [EvNotifyObservers])) ∧
  (∀ signals : list Worker,
     calls (CallUpdate <$> signals) self =
       (self, replicate (length signals) EvNotifyObservers)).
Proof.
  apply idle_update_notifies_again. reflexivity.
Defined.

(** ** Dispatch order *)

Lemma removed_pending observable self :
  _pending_workers (removed observable self) = _pending_workers self.
Proof. unfold removed. by destruct (bool_decide _). Qed.

Lemma run_jobs_fifo self queue :
  _pending_workers self = Some queue →
  result_of (run_jobs self) = Returned tt ∧
  ∃ rest, _pending_workers (state_of (run_jobs self)) = Some rest ∧
          started (log_of (run_jobs self)) ++ rest = queue.
Proof.
  intros Hq.
  destruct (run_jobs_queue self queue Hq)
    as (self' & log & Hrun & _ & Hpend & _ & _ & Hlog & _).
  rewrite Hrun. split; [reflexivity|].
  exists (drop (moved (available self) queue) queue).
  unfold state_of, log_of. simpl. split; [exact Hpend|].
  rewrite Hlog. apply take_drop.
Qed.

Lemma update_fifo observable self queue :
  _pending_workers self = Some queue →
  result_of (update observable self) = Returned tt ∧
  ∃ rest, _pending_workers (state_of (update observable self)) = Some rest ∧
          started (log_of (update observable self)) ++ rest = queue.
Proof.
  intros Hq. destruct (processing (removed observable self)) eqn:Hproc.
  - rewrite update_processing by done. apply run_jobs_fifo.
    now rewrite removed_pending.
  - rewrite update_quiescent by done. split; [reflexivity|].
    exists queue. unfold state_of, log_of. simpl.
    now rewrite removed_pending.
Qed.

Lemma calls_fifo cs : ∀ self queue,
  forallb during_run cs = true →
  _pending_workers self = Some queue →
  ∃ rest, _pending_workers (calls cs self).1 = Some rest ∧
          started (calls cs self).2 ++ rest = queue.
Proof.
  induction cs as [|c cs IH]; intros self queue Hcs Hq.
  - exists queue. done.
  - simpl in Hcs. apply andb_true_iff in Hcs as [Hc Hcs].
    assert (∃ mid, _pending_workers (state_of (call c self)) = Some mid ∧
                   started (log_of (call c self)) ++ mid = queue)
      as (mid & Hmid & Hsplit).
    { destruct c; try discriminate; simpl.
      - by apply run_jobs_fifo.
      - by apply update_fifo. }
    destruct (IH _ mid Hcs Hmid) as (rest & Hrest & Hsplit').
    exists rest. simpl. split; [exact Hrest|].
    rewrite started_app, <- app_assoc, Hsplit'. exact Hsplit.
Qed.

Example dispatch_one_slot :
  started (calls [CallStart (Some [1; 2; 3]); CallUpdate 1; CallUpdate 2;
                  CallUpdate 3] (new 1)).2 = [1; 2; 3].
Proof. reflexivity. Qed.

(** ** One notification per batch *)

Lemma processing_outstanding self :
  processing self = false ↔ outstanding self = 0.
Proof.
  rewrite processing_false_iff. unfold outstanding.
  destruct (_running_workers self); simpl; split; intros H;
    try lia; try (destruct H; discriminate); split; auto; lia.
Qed.


Lemma run_jobs_outstanding self queue :
  _pending_workers self = Some queue →
  outstanding (state_of (run_jobs self)) = outstanding self ∧
  notifications (log_of (run_jobs self)) = 0.
Proof.
  intros Hq.
  destruct (run_jobs_queue self queue Hq)
    as (self' & log & Hrun & _ & Hpend & Hrunning & _ & _ & Hnot & _).
  rewrite Hrun. unfold state_of, log_of. simpl. split; [|exact Hnot].
  unfold outstanding, pending_count.
  rewrite Hpend, Hrunning, Hq, length_app, length_take, length_drop.
  pose proof (moved_le_queue (available self) queue). lia.
Qed.






Example scenario_three_workers_two_slots :
  let r := start (Some [1; 2; 3]) (new 2) in
  started (log_of r) = [1; 2] ∧
  (λ u, (started (log_of u), notifications (log_of u))) <$>
     updates [1; 2; 3] (state_of r) = [([3], 0); ([], 0); ([], 1)] ∧
  _running_workers (calls (CallUpdate <$> [1; 2; 3]) (state_of r)).1 = [].
Proof. repeat split. Qed.

(** * Further properties of the methods *)

(** ** What [run_jobs] does to the queue, the running list and the handles *)

Lemma run_jobs_loop_step worker rest worker_iteration self :
  (0 < worker_iteration)%Z →
  run_jobs_loop worker_iteration (worker :: rest) self =
    match run_jobs_loop (worker_iteration - 1) rest
            (mkExecutor (_max_workers self) (Some rest)
               (_running_workers self ++ [worker])
               (<[worker := mkThread worker (allocated self)]>
                  (_running_threads self))
               (S (allocated self))) with
    | (r, self', log) =>
        (r, self',
         EvAddObserver worker :: EvThreadStart (mkThread worker (allocated self))
           :: log)
    end.
Proof.
  intros Hwi. apply Z.ltb_lt in Hwi. simpl. rewrite Hwi.
  unfold mbind, Py_bind, bind at 1. rewrite dispatch_eq. reflexivity.
Qed.

Lemma run_jobs_loop_log queue : ∀ worker_iteration self,
  log_of (run_jobs_loop worker_iteration queue self) =
    dispatch_log (take (moved worker_iteration queue) queue) (allocated self) ∧
  (∀ w thread,
     _running_threads (state_of (run_jobs_loop worker_iteration queue self)) !! w
       = Some thread →
     _running_threads self !! w = Some thread ∨ target thread = w).
Proof.
  induction queue as [|worker rest IH]; intros wi self.
  - unfold moved. rewrite Nat.min_0_r. simpl. auto.
  - destruct (Z.le_gt_cases wi 0) as [Hwi|Hwi].
    + rewrite (moved_no_slot _ _ Hwi). simpl.
      destruct (Z.ltb_spec 0 wi); [lia|]. simpl. auto.
    + assert (Hm : moved wi (worker :: rest) = S (moved (wi - 1) rest)).
      { unfold moved. simpl length.
        replace (Z.to_nat wi) with (S (Z.to_nat (wi - 1))) by lia.
        reflexivity. }
      rewrite Hm, run_jobs_loop_step by lia.
      set (self1 := mkExecutor _ _ _ _ _).
      destruct (IH (wi - 1)%Z self1) as [Hlog Hthreads].
      destruct (run_jobs_loop (wi - 1) rest self1) as [[r self'] log].
      unfold log_of, state_of in *. simpl in *. rewrite Hlog.
      split; [reflexivity|].
      intros w thread Hw. destruct (Hthreads w thread Hw) as [Hold|?]; [|by right].
      apply lookup_insert_Some in Hold as [[<- <-]|[_ ?]]; [by right | by left].
Qed.

Lemma run_jobs_state_cases self :
  (∃ queue, _pending_workers self = Some queue ∧ (0 < available self)%Z ∧
            run_jobs self = run_jobs_loop (available self) queue self) ∨
  state_of (run_jobs self) = self ∧ log_of (run_jobs self) = [].
Proof.
  destruct (Z.le_gt_cases (available self) 0) as [H0|H0].
  - right. now rewrite run_jobs_no_slot.
  - destruct (_pending_workers self) as [queue|] eqn:Hq.
    + left. exists queue. repeat split; [lia|].
      assert (Hpos : (0 <? available self)%Z = true) by (apply Z.ltb_lt; lia).
      unfold run_jobs, mbind, Py_bind, bind, get_self.
      fold (available self). rewrite Hpos, Hq.
      destruct (run_jobs_loop _ _ _) as [[r s] l]. reflexivity.
    + right. now rewrite run_jobs_unset by (auto; lia).
Qed.

(** X3: with the queue object in place, [run_jobs] returns and moves
    exactly min(free slots, queue length) workers (none when no slot is
    free) from the front of the queue to the end of the running list, in
    queue order; afterwards the queue is empty or no slot is free. *)
Theorem run_jobs_moves_front_of_queue self queue :
  _pending_workers self = Some queue →
  let k := Nat.min (Z.to_nat (available self)) (length queue) in
  result_of (run_jobs self) = Returned tt ∧
  _pending_workers (state_of (run_jobs self)) = Some (drop k queue) ∧
  _running_workers (state_of (run_jobs self)) =
    _running_workers self ++ take k queue ∧
  started (log_of (run_jobs self)) = take k queue ∧
  (pending_count (state_of (run_jobs self)) = 0 ∨
   (available (state_of (run_jobs self)) <= 0)%Z).
Proof.
  intros Hq. simpl. fold (moved (available self) queue).
  destruct (run_jobs_queue self queue Hq)
    as (self' & log & Hrun & Hmax & Hpend & Hrunning & _ & Hlog & _).
  rewrite Hrun. unfold result_of, state_of, log_of. simpl.
  repeat split; auto.
  pose proof (moved_exhausts (available self) queue) as Hex.
  pose proof (moved_le_queue (available self) queue) as Hle.
  set (m := moved (available self) queue) in *.
  unfold pending_count. rewrite Hpend, length_drop.
  assert (available self' = (available self - Z.of_nat m)%Z) as ->.
  { unfold available. rewrite Hmax, Hrunning, length_app, length_take. lia. }
  lia.
Qed.

Lemma run_jobs_moves_front_of_queue_witness :
  let self := mkExecutor 3 (Some [5; 6; 7; 8]) [4] ∅ 0 in
  let k := Nat.min (Z.to_nat (available self)) (length [5; 6; 7; 8]) in
  result_of (run_jobs self) = Returned tt ∧
  _pending_workers (state_of (run_jobs self)) = Some (drop k [5; 6; 7; 8]) ∧
  _running_workers (state_of (run_jobs self)) =
    _running_workers self ++ take k [5; 6; 7; 8] ∧
  started (log_of (run_jobs self)) = take k [5; 6; 7; 8] ∧
  (pending_count (state_of (run_jobs self)) = 0 ∨
   (available (state_of (run_jobs self)) <= 0)%Z).
Proof.
  apply (run_jobs_moves_front_of_queue
           (mkExecutor 3 (Some [5; 6; 7; 8]) [4] ∅ 0) [5; 6; 7; 8]).
  reflexivity.
Defined.

Lemma run_jobs_log self :
  log_of (run_jobs self) =
    dispatch_log
      (take (Nat.min (Z.to_nat (available self)) (pending_count self))
            (default [] (_pending_workers self)))
      (allocated self).
Proof.
  destruct (run_jobs_state_cases self) as [(queue & Hq & Hpos & Hrun)|[_ Hlog]].
  - rewrite Hrun. unfold pending_count. rewrite Hq. simpl.
    apply (run_jobs_loop_log queue (available self) self).
  - rewrite Hlog. unfold pending_count.
    destruct (_pending_workers self) as [queue|] eqn:Hq; simpl;
      [|by rewrite Nat.min_0_r].
    destruct (run_jobs_queue self queue Hq)
      as (self' & log & Hrun & _ & _ & _ & _ & Hst & _).
    rewrite Hrun in Hlog. unfold log_of in Hlog. simpl in Hlog. subst log.
    simpl in Hst. unfold moved in Hst. rewrite <- Hst. reflexivity.
Qed.

(** X4: the collaborator calls of one [run_jobs] are, for each worker it
    moves and in queue order, the subscription of the executor to that
    worker immediately followed by the start of a new handle for that
    worker; it never kills a handle and never notifies the observers. *)
Theorem run_jobs_subscribes_before_starting self :
  log_of (run_jobs self) =
    dispatch_log
      (take (Nat.min (Z.to_nat (available self)) (pending_count self))
            (default [] (_pending_workers self)))
      (allocated self).
Proof. apply run_jobs_log. Qed.

(** ** What the calls never change *)

Lemma removed_max_workers observable self :
  _max_workers (removed observable self) = _max_workers self.
Proof. unfold removed. by destruct (bool_decide _). Qed.

Lemma removed_running_threads observable self :
  _running_threads (removed observable self) = _running_threads self.
Proof. unfold removed. by destruct (bool_decide _). Qed.

Lemma run_jobs_max_workers self :
  _max_workers (state_of (run_jobs self)) = _max_workers self.
Proof.
  destruct (_pending_workers self) as [queue|] eqn:Hq.
  - destruct (run_jobs_queue self queue Hq) as (self' & log & Hrun & Hmax & _).
    now rewrite Hrun.
  - destruct (run_jobs_state_cases self) as [(queue & Hq' & _)|[-> _]];
      [congruence | reflexivity].
Qed.

Lemma update_state_cases observable self :
  state_of (update observable self) = removed observable self ∨
  state_of (update observable self) = state_of (run_jobs (removed observable self)).
Proof.
  destruct (processing (removed observable self)) eqn:Hproc.
  - right. now rewrite update_processing.
  - left. now rewrite update_quiescent.
Qed.

Lemma start_state_cases workers self :
  state_of (start workers self) = self ∨
  ∃ ws, workers = Some ws ∧ ws ≠ [] ∧
        start workers self = run_jobs (set_pending_workers (Some ws) self).
Proof.
  destruct (workers_cases workers) as [Hno|(ws & -> & Hne)].
  - left. now rewrite start_no_workers.
  - right. exists ws. repeat split; auto. by apply start_workers.
Qed.

(** X1: no call changes the configured [max_workers], in whatever state it
    is made and whether it returns or raises. *)
Theorem max_workers_is_never_changed c self :
  _max_workers (state_of (call c self)) = _max_workers self.
Proof.
  destruct c; simpl.
  - destruct (start_state_cases workers self) as [->|(ws & _ & _ & ->)];
      [reflexivity|]. now rewrite run_jobs_max_workers.
  - destruct (stop_state self) as [-> | ->]; reflexivity.
  - reflexivity.
  - apply run_jobs_max_workers.
  - destruct (update_state_cases observable self) as [-> | ->].
    + apply removed_max_workers.
    + rewrite run_jobs_max_workers. apply removed_max_workers.
Qed.

Lemma run_jobs_handles self w thread :
  _running_threads (state_of (run_jobs self)) !! w = Some thread →
  _running_threads self !! w = Some thread ∨ target thread = w.
Proof.
  destruct (run_jobs_state_cases self) as [(queue & _ & _ & ->)|[-> _]];
    [|by left].
  apply (run_jobs_loop_log queue (available self) self).
Qed.

Lemma run_jobs_keeps_handles self w :
  is_Some (_running_threads self !! w) →
  is_Some (_running_threads (state_of (run_jobs self)) !! w).
Proof.
  intros Hw. destruct (_pending_workers self) as [queue|] eqn:Hq.
  - destruct (run_jobs_queue self queue Hq)
      as (self' & log & Hrun & _ & _ & _ & Hthreads & _).
    rewrite Hrun. unfold state_of. simpl. apply Hthreads. by left.
  - destruct (run_jobs_state_cases self) as [(queue & Hq' & _)|[-> _]];
      [congruence | done].
Qed.

(** X13: [start], [run_jobs] and [update] never take an entry out of the
    handle mapping: a worker that has a handle before such a call has one
    after it, also when the call is the worker's own completion signal.
    Only [stop] and [clean_up] empty the mapping. *)
Theorem handles_are_kept_until_reset c self w :
  resets c = false →
  is_Some (_running_threads self !! w) →
  is_Some (_running_threads (state_of (call c self)) !! w).
Proof.
  intros Hc Hw. destruct c; try discriminate; simpl.
  - destruct (start_state_cases workers self) as [->|(ws & _ & _ & ->)];
      [done|]. by apply run_jobs_keeps_handles.
  - by apply run_jobs_keeps_handles.
  - destruct (update_state_cases observable self) as [-> | ->].
    + by rewrite removed_running_threads.
    + apply run_jobs_keeps_handles. by rewrite removed_running_threads.
Qed.

Lemma handles_are_kept_until_reset_witness :
  let self := state_of (start (Some [1; 2]) (new 1)) in
  is_Some (_running_threads (state_of (call (CallUpdate 1) self)) !! 1).
Proof.
  apply (handles_are_kept_until_reset (CallUpdate 1)
           (state_of (start (Some [1; 2]) (new 1))) 1).
  - reflexivity.
  - vm_compute. eauto.
Defined.

(** ** Handles and the workers they run *)

Lemma call_handles c self w thread :
  _running_threads (state_of (call c self)) !! w = Some thread →
  _running_threads self !! w = Some thread ∨ target thread = w.
Proof.
  destruct c; simpl.
  - destruct (start_state_cases workers self) as [->|(ws & _ & _ & ->)];
      [by left|]. intros H. by apply run_jobs_handles in H.
  - destruct (stop_state self) as [-> | ->]; [by left|].
    simpl. by rewrite lookup_empty.
  - simpl. by rewrite lookup_empty.
  - apply run_jobs_handles.
  - destruct (update_state_cases observable self) as [-> | ->].
    + rewrite removed_running_threads. by left.
    + intros H. apply run_jobs_handles in H.
      by rewrite removed_running_threads in H.
Qed.

Lemma Reachable_handles N self w thread :
  Reachable N self → _running_threads self !! w = Some thread →
  target thread = w.
Proof.
  induction 1 as [|self c _ IH]; [simpl; by rewrite lookup_empty|].
  intros H. apply call_handles in H as [?|?]; auto.
Qed.

Lemma recorded_handles_targets (m : gmap Worker StoppableThread)
    (l : list Worker) (threads : list StoppableThread) :
  (∀ w thread, m !! w = Some thread → target thread = w) →
  Forall2 (λ w thread, m !! w = Some thread) l threads →
  target <$> threads = l.
Proof.
  intros Hm Hall. induction Hall as [|w thread l threads Hw _ IH];
    [reflexivity|].
  rewrite fmap_cons, IH. f_equal. by apply Hm.
Qed.

(** X12: in every reachable state the handle recorded for a worker is a
    handle constructed for that worker, so the handles [stop] kills are
    handles of exactly the workers of the running list, one per element and
    in list order. *)
Theorem stop_kills_handles_of_running_workers N self :
  Reachable N self →
  (∀ w thread, _running_threads self !! w = Some thread → target thread = w) ∧
  ∃ threads,
    log_of (stop self) = EvKill <$> threads ∧
    target <$> threads = _running_workers self.
Proof.
  intros Hreach. split; [intros w thread; by apply (Reachable_handles N)|].
  destruct (Reachable_inv N self Hreach) as [[_ _ Hcov _] _].
  destruct (stop_loop_kills (_running_workers self) self Hcov)
    as (threads & Hall & Hrun).
  exists threads. rewrite stop_eq, Hrun. unfold log_of. simpl.
  rewrite app_nil_r. split; [reflexivity|].
  apply (recorded_handles_targets (_running_threads self)); [|exact Hall].
  intros w thread. by apply (Reachable_handles N).
Qed.

Lemma stop_kills_handles_of_running_workers_witness :
  let self := state_of (call (CallUpdate 1)
                (state_of (call (CallStart (Some [1; 2; 3])) (new 2)))) in
  (∀ w thread, _running_threads self !! w = Some thread → target thread = w) ∧
  ∃ threads,
    log_of (stop self) = EvKill <$> threads ∧
    target <$> threads = _running_workers self.
Proof.
  apply (stop_kills_handles_of_running_workers 2).
  apply Reachable_call, Reachable_call, Reachable_new.
Defined.

(** ** Errors *)

Lemma update_returns N observable self :
  Inv N self → result_of (update observable self) = Returned tt.
Proof.
  intros [Hcons _].
  pose proof (removed_consistent N observable self Hcons) as [_ _ _ Hu].
  destruct (processing (removed observable self)) eqn:Hproc.
  - rewrite update_processing by done.
    destruct (_pending_workers (removed observable self)) as [queue|] eqn:Hq.
    + by apply (run_jobs_fifo _ queue).
    + assert (processing (removed observable self) = false) as Hfalse;
        [|congruence].
      apply processing_false_iff. unfold pending_count. rewrite Hq. auto.
  - now rewrite update_quiescent.
Qed.

Lemma stop_returns N self :
  Inv N self → result_of (stop self) = Returned tt ∧
  state_of (stop self) = mkExecutor (_max_workers self) None [] ∅ (allocated self).
Proof.
  intros [[_ _ Hcov _] _].
  destruct (stop_loop_kills (_running_workers self) self Hcov)
    as (threads & _ & Hrun).
  rewrite stop_eq, Hrun. done.
Qed.

(** X2: in every reachable state the only calls that raise are [start]
    when the factory returned [None] or an empty list
    ([OperationalException]) and [run_jobs] when a slot is free and the
    queue object is unset ([AttributeError]); every other call, in
    particular every [update], [stop] and [clean_up], returns, and
    [KeyError] never occurs. *)
Theorem errors_of_reachable_calls N c self :
  Reachable N self →
  result_of (call c self) =
    match expected_error c self with
    | Some e => Raised e
    | None => Returned tt
    end.
Proof.
  intros Hreach. pose proof (Reachable_inv N self Hreach) as Hinv.
  destruct c as [[[|w ws]|]| | | |observable]; simpl.
  - reflexivity.
  - rewrite start_workers by done.
    by apply (run_jobs_fifo _ (w :: ws)).
  - reflexivity.
  - by apply (stop_returns N).
  - reflexivity.
  - fold (available self).
    destruct (Z.ltb_spec 0 (available self)) as [Hpos|Hneg]; simpl.
    + destruct (_pending_workers self) as [queue|] eqn:Hq; simpl.
      * by apply (run_jobs_fifo _ queue).
      * now rewrite run_jobs_unset.
    + now rewrite run_jobs_no_slot.
  - by apply (update_returns N).
Qed.

Lemma errors_of_reachable_calls_witness :
  let self := state_of (call CallStop
                (state_of (call (CallStart (Some [1; 2])) (new 1)))) in
  result_of (call CallRunJobs self) =
    match expected_error CallRunJobs self with
    | Some e => Raised e
    | None => Returned tt
    end.
Proof.
  apply (errors_of_reachable_calls 1 CallRunJobs).
  apply Reachable_call, Reachable_call, Reachable_new.
Defined.

(** ** Slots in use *)

(** X5: for [max_workers] N ≥ 0, in every reachable state the number of
    running workers is the smaller of N and the number of workers queued or
    running: no slot is left free while a worker is queued.  So with N ≥ 1
    an executor that is processing has a running worker, whose completion
    signal will drive it on. *)
Theorem slots_are_filled N self :
  (0 <= N)%Z → Reachable N self →
  Z.of_nat (length (_running_workers self)) =
    Z.min N (Z.of_nat (pending_count self + length (_running_workers self))) ∧
  ((1 <= N)%Z → processing self = true → _running_workers self ≠ []).
Proof.
  intros HN Hreach.
  destruct (Reachable_inv N self Hreach) as [[Hmax Hb _ _] Hsat].
  unfold saturated, available in Hsat. rewrite Hmax in Hsat.
  split; [lia|].
  intros H1 Hproc Hnil.
  assert (processing self = false) as Hfalse; [|congruence].
  apply processing_false_iff. split; [|done].
  rewrite Hnil in Hsat. simpl in Hsat. lia.
Qed.

Lemma slots_are_filled_witness :
  let self := state_of (call (CallUpdate 2)
                (state_of (call (CallStart (Some [1; 2; 3; 4])) (new 2)))) in
  Z.of_nat (length (_running_workers self)) =
    Z.min 2 (Z.of_nat (pending_count self + length (_running_workers self))) ∧
  ((1 <= 2)%Z → processing self = true → _running_workers self ≠ []).
Proof.
  apply (slots_are_filled 2).
  - lia.
  - apply Reachable_call, Reachable_call, Reachable_new.
Defined.

(** ** When [update] notifies *)

Lemma dispatch_log_notifications ws : ∀ n, notifications (dispatch_log ws n) = 0.
Proof. induction ws as [|w ws IH]; intros n; simpl; auto. Qed.

Lemma run_jobs_keeps_processing self :
  processing (state_of (run_jobs self)) = processing self.
Proof.
  destruct (run_jobs_state_cases self) as [(queue & Hq & _ & _)|[-> _]];
    [|reflexivity].
  destruct (run_jobs_outstanding self queue Hq) as [Hout _].
  destruct (processing self) eqn:Hp.
  - apply not_false_iff_true. intros Hf. apply processing_outstanding in Hf.
    rewrite Hout in Hf. apply processing_outstanding in Hf. congruence.
  - apply processing_outstanding. rewrite Hout.
    by apply processing_outstanding.
Qed.

(** X7: in whatever state it is called, [update] calls [notify_observers]
    at most once, and it does so exactly when the executor is not
    processing once the call is over (no worker queued, none running). *)
Theorem update_notifies_iff_drained observable self :
  notifications (log_of (update observable self)) =
    if processing (state_of (update observable self)) then 0 else 1.
Proof.
  destruct (processing (removed observable self)) eqn:Hproc.
  - rewrite update_processing by done.
    rewrite run_jobs_keeps_processing, Hproc.
    rewrite run_jobs_log.
    apply dispatch_log_notifications.
  - rewrite update_quiescent by done. unfold state_of, log_of. simpl.
    now rewrite Hproc.
Qed.

(** X11: in every reachable state, after [stop()] a completion signal of
    any worker, for instance of one that was just cancelled, finds the
    executor idle and makes it notify the observers, as if the batch had
    completed. *)
Theorem signal_after_stop_notifies N self w :
  Reachable N self →
  update w (state_of (stop self)) =
    (Returned tt, state_of (stop self), [EvNotifyObservers]).
Proof.
  intros Hreach.
  destruct (stop_returns N self (Reachable_inv N self Hreach)) as [_ ->].
  by apply update_when_idle.
Qed.

Lemma signal_after_stop_notifies_witness :
  let self := state_of (call (CallStart (Some [1; 2; 3])) (new 2)) in
  update 1 (state_of (stop self)) =
    (Returned tt, state_of (stop self), [EvNotifyObservers]).
Proof.
  apply (signal_after_stop_notifies 2).
  apply Reachable_call, Reachable_new.
Defined.

(** ** A batch from start to end *)

Lemma start_outstanding ws self :
  ws ≠ [] →
  result_of (start (Some ws) self) = Returned tt ∧
  (∃ rest, _pending_workers (state_of (start (Some ws) self)) = Some rest) ∧
  outstanding (state_of (start (Some ws) self)) =
    length ws + length (_running_workers self).
Proof.
  intros Hne. rewrite start_workers by done.
  set (self1 := set_pending_workers (Some ws) self).
  destruct (run_jobs_fifo self1 ws eq_refl) as (Hres & rest & Hrest & _).
  destruct (run_jobs_outstanding self1 ws eq_refl) as [Hout _].
  split; [exact Hres|]. split; [by exists rest|]. by rewrite Hout.
Qed.

(** X14: a [start] that finds workers returns with the executor
    processing, whatever [max_workers] is and whatever was running. *)
Theorem start_leaves_executor_processing ws self :
  ws ≠ [] →
  result_of (start (Some ws) self) = Returned tt ∧
  processing (state_of (start (Some ws) self)) = true.
Proof.
  intros Hne. destruct (start_outstanding ws self Hne) as (Hres & _ & Hout).
  split; [exact Hres|].
  apply not_false_iff_true. intros Hf. apply processing_outstanding in Hf.
  destruct ws; [done|]. simpl in Hout. lia.
Qed.

Lemma start_leaves_executor_processing_witness :
  result_of (start (Some [1; 2]) (new 0)) = Returned tt ∧
  processing (state_of (start (Some [1; 2]) (new 0))) = true.
Proof.
  apply (start_leaves_executor_processing [1; 2] (new 0)). discriminate.
Defined.

Lemma calls_without_slots ws cs : ∀ self,
  ws ≠ [] → (_max_workers self <= 0)%Z →
  _pending_workers self = Some ws →
  forallb during_run cs = true →
  (calls cs self).2 = [] ∧
  _pending_workers (calls cs self).1 = Some ws ∧
  (_max_workers (calls cs self).1 <= 0)%Z.
Proof.
  intros self Hne. revert self.
  induction cs as [|c cs IH]; intros self Hmax Hq Hcs; [done|].
  simpl in Hcs. apply andb_true_iff in Hcs as [Hc Hcs].
  assert (Hnoslot : ∀ s, (_max_workers s <= 0)%Z → (available s <= 0)%Z)
    by (intros s; unfold available; lia).
  assert (state_of (call c self) = self ∨
          ∃ w, state_of (call c self) = removed w self) as Hst.
  { destruct c; try discriminate; simpl.
    - left. rewrite run_jobs_no_slot; auto.
    - right. exists observable.
      destruct (update_state_cases observable self) as [-> | ->]; [done|].
      rewrite run_jobs_no_slot; [done|].
      apply Hnoslot. by rewrite removed_max_workers. }
  assert (Hlog : log_of (call c self) = []).
  { destruct c; try discriminate; simpl.
    - rewrite run_jobs_no_slot; auto.
    - rewrite update_processing.
      + rewrite run_jobs_no_slot; [done|].
        apply Hnoslot. by rewrite removed_max_workers.
      + apply not_false_iff_true. intros Hf.
        apply processing_false_iff in Hf as [Hf _].
        unfold pending_count in Hf. rewrite removed_pending, Hq in Hf.
        destruct ws; [done | discriminate]. }
  simpl. rewrite Hlog. simpl. apply IH; auto.
  - destruct Hst as [->|[w ->]]; [done | by rewrite removed_max_workers].
  - destruct Hst as [->|[w ->]]; [done | by rewrite removed_pending].
Qed.

(** X10: with [max_workers] ≤ 0 a [start] that finds workers returns, but
    neither it nor any later [update] or [run_jobs] call starts a worker or
    notifies the observers: the whole batch stays queued and the executor
    stays processing. *)
Theorem without_slots_nothing_is_started self ws cs :
  (_max_workers self <= 0)%Z → ws ≠ [] → forallb during_run cs = true →
  let r := start (Some ws) self in
  let r' := calls cs (state_of r) in
  result_of r = Returned tt ∧
  log_of r ++ r'.2 = [] ∧
  _pending_workers r'.1 = Some ws ∧
  processing r'.1 = true.
Proof.
  intros Hmax Hne Hcs. simpl. rewrite start_workers by done.
  set (self1 := set_pending_workers (Some ws) self).
  assert (Hav : (available self1 <= 0)%Z) by (unfold available; simpl; lia).
  rewrite (run_jobs_no_slot self1 Hav). unfold state_of, result_of, log_of.
  simpl.
  destruct (calls_without_slots ws cs self1 Hne Hmax eq_refl Hcs)
    as (Hlog & Hpend & _).
  repeat split; auto.
  unfold processing. rewrite Hpend.
  destruct ws; [done|]. reflexivity.
Qed.

Lemma without_slots_nothing_is_started_witness :
  let r := start (Some [1; 2]) (new 0) in
  let r' := calls [CallUpdate 1; CallRunJobs; CallUpdate 2] (state_of r) in
  result_of r = Returned tt ∧
  log_of r ++ r'.2 = [] ∧
  _pending_workers r'.1 = Some [1; 2] ∧
  processing r'.1 = true.
Proof.
  apply (without_slots_nothing_is_started (new 0) [1; 2]
           [CallUpdate 1; CallRunJobs; CallUpdate 2]).
  - simpl. lia.
  - discriminate.
  - reflexivity.
Defined.

Lemma list_remove_first_perm x l :
  x ∈ l → l ≡ₚ x :: list_remove_first x l.
Proof.
  induction l as [|y l IH]; intros H; [by apply elem_of_nil in H|].
  simpl. destruct (decide (x = y)) as [->|Hne]; [reflexivity|].
  apply elem_of_cons in H as [?|H]; [done|].
  rewrite (IH H) at 1. apply perm_swap.
Qed.

Lemma run_jobs_same_workers self queue :
  _pending_workers self = Some queue →
  ∃ rest, _pending_workers (state_of (run_jobs self)) = Some rest ∧
          _running_workers (state_of (run_jobs self)) ++ rest =
            _running_workers self ++ queue.
Proof.
  intros Hq.
  destruct (run_jobs_queue self queue Hq)
    as (self' & log & Hrun & _ & Hpend & Hrunning & _).
  rewrite Hrun. unfold state_of. simpl.
  exists (drop (moved (available self) queue) queue). split; [exact Hpend|].
  rewrite Hrunning, <- app_assoc, take_drop. reflexivity.
Qed.

Lemma update_conserves observable self queue :
  _pending_workers self = Some queue →
  observable ∈ _running_workers self →
  ∃ rest,
    _pending_workers (state_of (update observable self)) = Some rest ∧
    observable :: _running_workers (state_of (update observable self)) ++ rest
      ≡ₚ _running_workers self ++ queue.
Proof.
  intros Hq Hin.
  assert (Hrem : observable :: _running_workers (removed observable self)
                 ≡ₚ _running_workers self).
  { unfold removed. rewrite bool_decide_eq_true_2 by done. simpl.
    symmetry. by apply list_remove_first_perm. }
  destruct (update_state_cases observable self) as [-> | ->].
  - exists queue. rewrite removed_pending. split; [exact Hq|].
    by rewrite app_comm_cons, Hrem.
  - destruct (run_jobs_same_workers (removed observable self) queue)
      as (rest & Hrest & Heq); [by rewrite removed_pending|].
    exists rest. split; [exact Hrest|].
    by rewrite Heq, app_comm_cons, Hrem.
Qed.

Lemma completions_conserve signals : ∀ self queue,
  _pending_workers self = Some queue →
  each_running signals self = true →
  ∃ rest,
    _pending_workers (calls (CallUpdate <$> signals) self).1 = Some rest ∧
    signals ++ _running_workers (calls (CallUpdate <$> signals) self).1 ++ rest
      ≡ₚ _running_workers self ++ queue.
Proof.
  induction signals as [|w signals IH]; intros self queue Hq Hrun.
  - exists queue. done.
  - simpl in Hrun. apply andb_true_iff in Hrun as [Hin Hrun].
    apply bool_decide_eq_true in Hin.
    destruct (update_conserves w self queue Hq Hin) as (mid & Hmid & Hperm).
    destruct (IH _ mid Hmid Hrun) as (rest & Hrest & Hperm').
    exists rest.
    change (calls (CallUpdate <$> w :: signals) self).1
      with (calls (CallUpdate <$> signals) (state_of (update w self))).1.
    split; [exact Hrest|].
    rewrite <- Hperm. simpl. constructor.
    rewrite Hperm'. reflexivity.
Qed.

Lemma completions_during_run signals :
  forallb during_run (CallUpdate <$> signals) = true.
Proof. induction signals as [|w signals IH]; simpl; auto. Qed.

(** X8: a batch [ws] is started on an instance with no running worker,
    and workers signal their completion, each one while it is running.  At
    every moment the workers that have completed, the running ones and the
    queued ones together are the batch: each worker of the factory list is
    in exactly one of the three places, as often as it occurs in the list. *)
Theorem batch_workers_are_conserved self ws signals :
  _running_workers self = [] →
  ws ≠ [] →
  each_running signals (state_of (start (Some ws) self)) = true →
  let final := (calls (CallUpdate <$> signals) (state_of (start (Some ws) self))).1 in
  ∃ rest,
    _pending_workers final = Some rest ∧
    signals ++ _running_workers final ++ rest ≡ₚ ws.
Proof.
  intros Hidle Hne Hrun. simpl.
  rewrite start_workers in * by done.
  set (self1 := set_pending_workers (Some ws) self) in *.
  destruct (run_jobs_same_workers self1 ws eq_refl) as (mid & Hmid & Heq).
  destruct (completions_conserve signals _ mid Hmid Hrun) as (rest & Hrest & Hperm).
  exists rest. split; [exact Hrest|].
  rewrite Hperm, Heq. simpl. by rewrite Hidle.
Qed.

Lemma batch_workers_are_conserved_witness :
  let final := (calls (CallUpdate <$> [2; 3])
                  (state_of (start (Some [1; 2; 3; 4]) (new 2)))).1 in
  ∃ rest,
    _pending_workers final = Some rest ∧
    [2; 3] ++ _running_workers final ++ rest ≡ₚ [1; 2; 3; 4].
Proof.
  apply (batch_workers_are_conserved (new 2) [1; 2; 3; 4] [2; 3]).
  - reflexivity.
  - discriminate.
  - reflexivity.
Defined.

(** X9: when as many completion signals have arrived as the batch has
    workers, each for a worker running at that time, the run is over: the
    running list and the queue are empty, [processing] is false, and every
    worker of the factory list has been started exactly once, in list
    order. *)
Theorem completed_batch_started_every_worker self ws signals :
  _running_workers self = [] →
  ws ≠ [] →
  length signals = length ws →
  each_running signals (state_of (start (Some ws) self)) = true →
  let r := start (Some ws) self in
  let r' := calls (CallUpdate <$> signals) (state_of r) in
  _running_workers r'.1 = [] ∧
  _pending_workers r'.1 = Some [] ∧
  processing r'.1 = false ∧
  started (log_of r ++ r'.2) = ws.
Proof.
  intros Hidle Hne Hlen Hrun. simpl.
  rewrite start_workers in * by done.
  set (self1 := set_pending_workers (Some ws) self) in *.
  destruct (run_jobs_same_workers self1 ws eq_refl) as (mid & Hmid & Heq).
  destruct (completions_conserve signals _ mid Hmid Hrun) as (rest & Hrest & Hperm).
  rewrite Heq in Hperm. simpl in Hperm. rewrite Hidle in Hperm. simpl in Hperm.
  apply Permutation_length in Hperm. rewrite !length_app in Hperm.
  set (final := (calls (CallUpdate <$> signals) (state_of (run_jobs self1))).1) in *.
  assert (Hrunning : _running_workers final = [])
    by (apply length_zero_iff_nil; lia).
  assert (rest = []) as -> by (apply length_zero_iff_nil; lia).
  split; [exact Hrunning|]. split; [exact Hrest|].
  split; [apply processing_false_iff; unfold pending_count;
          by rewrite Hrest, Hrunning|].
  destruct (run_jobs_fifo self1 ws eq_refl) as (_ & mid' & Hmid' & Hsplit).
  destruct (calls_fifo (CallUpdate <$> signals) _ mid'
              (completions_during_run signals) Hmid') as (rest' & Hrest' & Hsplit').
  fold final in Hrest'. rewrite Hrest in Hrest'. injection Hrest' as <-.
  rewrite app_nil_r in Hsplit'.
  rewrite started_app, Hsplit'. exact Hsplit.
Qed.

Lemma completed_batch_started_every_worker_witness :
  let r := start (Some [1; 2; 3]) (new 2) in
  let r' := calls (CallUpdate <$> [2; 1; 3]) (state_of r) in
  _running_workers r'.1 = [] ∧
  _pending_workers r'.1 = Some [] ∧
  processing r'.1 = false ∧
  started (log_of r ++ r'.2) = [1; 2; 3].
Proof.
  apply (completed_batch_started_every_worker (new 2) [1; 2; 3] [2; 1; 3]);
    [reflexivity | discriminate | reflexivity | reflexivity].
Defined.

(** ** Restarting *)

(** X15: [_initialize] with a non-empty factory list returns, asks nothing
    of its collaborators and replaces the queue by a new one holding the
    factory list in the same order: workers still queued from an earlier
    [start] are dropped, while the running list and the handle mapping are
    left as they are. *)
Theorem initialize_replaces_queue ws self :
  ws ≠ [] →
  _initialize (Some ws) self =
    (Returned tt,
     mkExecutor (_max_workers self) (Some ws) (_running_workers self)
       (_running_threads self) (allocated self),
     []).
Proof. intros Hne. by rewrite _initialize_workers. Qed.

Lemma initialize_replaces_queue_witness :
  let self := state_of (start (Some [1; 2; 3]) (new 1)) in
  _initialize (Some [7; 8]) self =
    (Returned tt,
     mkExecutor (_max_workers self) (Some [7; 8]) (_running_workers self)
       (_running_threads self) (allocated self),
     []).
Proof.
  apply (initialize_replaces_queue [7; 8]). discriminate.
Defined.

(** ** Which workers have a handle *)

Lemma run_jobs_handle_iff self w :
  is_Some (_running_threads (state_of (run_jobs self)) !! w) ↔
  is_Some (_running_threads self !! w) ∨ w ∈ started (log_of (run_jobs self)).
Proof.
  destruct (_pending_workers self) as [queue|] eqn:Hq.
  - destruct (run_jobs_queue self queue Hq)
      as (self' & log & Hrun & _ & _ & _ & Hthreads & Hlog & _).
    rewrite Hrun. unfold state_of, log_of. simpl. by rewrite Hlog.
  - destruct (run_jobs_state_cases self) as [(queue & Hq' & _)|[-> ->]];
      [congruence|].
    simpl. split; [by left|]. intros [?|H]; [done | by apply elem_of_nil in H].
Qed.

Lemma call_handle_iff c self w :
  resets c = false →
  is_Some (_running_threads (state_of (call c self)) !! w) ↔
  is_Some (_running_threads self !! w) ∨ w ∈ started (log_of (call c self)).
Proof.
  assert (Hnil : ∀ P : Prop, P ↔ P ∨ w ∈ @nil Worker).
  { intros P. split; [by left|]. intros [?|H]; [done | by apply elem_of_nil in H]. }
  intros Hc. destruct c; try discriminate; simpl.
  - destruct (workers_cases workers) as [Hno|(ws & -> & Hne)].
    + rewrite start_no_workers by done. apply Hnil.
    + rewrite start_workers by done.
      apply (run_jobs_handle_iff (set_pending_workers (Some ws) self)).
  - apply run_jobs_handle_iff.
  - destruct (processing (removed observable self)) eqn:Hproc.
    + rewrite update_processing by done.
      rewrite run_jobs_handle_iff. by rewrite removed_running_threads.
    + rewrite update_quiescent by done. unfold state_of, log_of. simpl.
      rewrite removed_running_threads. apply Hnil.
Qed.

Lemma calls_handle_iff cs : ∀ self w,
  forallb (λ c, negb (resets c)) cs = true →
  is_Some (_running_threads (calls cs self).1 !! w) ↔
  is_Some (_running_threads self !! w) ∨ w ∈ started (calls cs self).2.
Proof.
  induction cs as [|c cs IH]; intros self w Hcs.
  - simpl. split; [by left|]. intros [?|H]; [done | by apply elem_of_nil in H].
  - simpl in Hcs. apply andb_true_iff in Hcs as [Hc Hcs].
    apply negb_true_iff in Hc. simpl.
    rewrite (IH _ w Hcs), (call_handle_iff c self w Hc).
    rewrite started_app, elem_of_app. tauto.
Qed.

(** X6: on an instance that has gone through any calls other than [stop]
    and [clean_up] since it was created, [stop_running_worker(w)] returns,
    having asked one handle to stop, exactly when a handle has been started
    for [w], be [w] still running or not; for every other worker it raises
    [KeyError].  It never changes the instance. *)
Theorem stop_running_worker_needs_started_worker N cs w :
  forallb (λ c, negb (resets c)) cs = true →
  let self := (calls cs (new N)).1 in
  state_of (stop_running_worker w self) = self ∧
  (w ∈ started (calls cs (new N)).2 →
   ∃ thread, stop_running_worker w self = (Returned tt, self, [EvKill thread])) ∧
  (w ∉ started (calls cs (new N)).2 →
   stop_running_worker w self = (Raised KeyError, self, [])).
Proof.
  intros Hcs. simpl.
  pose proof (calls_handle_iff cs (new N) w Hcs) as Hiff.
  unfold stop_running_worker. unfold_py.
  destruct (_running_threads (calls cs (new N)).1 !! w) as [thread|] eqn:Hw; simpl.
  - split; [reflexivity|]. split; [by exists thread|].
    intros Hnot. destruct Hiff as [[Hold|?] _]; [by eexists| |done].
    simpl in Hold. rewrite lookup_empty in Hold. by destruct Hold.
  - split; [reflexivity|]. split; [|done].
    intros Hin. destruct Hiff as [_ Hiff].
    destruct Hiff as [thread Hthread]; [by right | congruence].
Qed.

Lemma stop_running_worker_needs_started_worker_witness :
  let cs := [CallStart (Some [1; 2; 3]); CallUpdate 1] in
  let self := (calls cs (new 1)).1 in
  state_of (stop_running_worker 3 self) = self ∧
  (3 ∈ started (calls cs (new 1)).2 →
   ∃ thread, stop_running_worker 3 self = (Returned tt, self, [EvKill thread])) ∧
  (3 ∉ started (calls cs (new 1)).2 →
   stop_running_worker 3 self = (Raised KeyError, self, [])).
Proof.
  apply (stop_running_worker_needs_started_worker 1
           [CallStart (Some [1; 2; 3]); CallUpdate 1] 3).
  reflexivity.
Defined.

(** ** Dispatch order over a whole run *)

Lemma run_jobs_saturates s queue :
  _pending_workers s = Some queue → saturated (state_of (run_jobs s)).
Proof.
  intros Hq.
  destruct (run_jobs_queue s queue Hq)
    as (s' & log & Hrun & Hmax & Hpend & Hrunning & _).
  rewrite Hrun. unfold state_of. simpl.
  pose proof (moved_exhausts (available s) queue) as Hex.
  pose proof (moved_le_queue (available s) queue) as Hle.
  set (m := moved (available s) queue) in *.
  unfold saturated, pending_count. rewrite Hpend, length_drop.
  assert (available s' = (available s - Z.of_nat m)%Z) as ->.
  { unfold available. rewrite Hmax, Hrunning, length_app, length_take. lia. }
  lia.
Qed.

Lemma call_saturates c s queue :
  during_run c = true → _pending_workers s = Some queue →
  saturated (state_of (call c s)).
Proof.
  intros Hc Hq. destruct c; try discriminate; simpl.
  - by apply (run_jobs_saturates s queue).
  - destruct (processing (removed observable s)) eqn:Hproc.
    + rewrite update_processing by done.
      apply (run_jobs_saturates _ queue). by rewrite removed_pending.
    + rewrite update_quiescent by done. by apply quiescent_saturated.
Qed.

Lemma call_keeps_queue c s queue :
  during_run c = true → _pending_workers s = Some queue →
  ∃ rest, _pending_workers (state_of (call c s)) = Some rest.
Proof.
  intros Hc Hq. destruct c; try discriminate; simpl.
  - destruct (run_jobs_fifo s queue Hq) as (_ & rest & Hrest & _). eauto.
  - destruct (update_fifo observable s queue Hq) as (_ & rest & Hrest & _). eauto.
Qed.

Lemma calls_saturated cs : ∀ s queue,
  forallb during_run cs = true →
  _pending_workers s = Some queue → saturated s →
  saturated (calls cs s).1.
Proof.
  induction cs as [|c cs IH]; intros s queue Hcs Hq Hsat; [done|].
  simpl in Hcs. apply andb_true_iff in Hcs as [Hc Hcs]. simpl.
  destruct (call_keeps_queue c s queue Hc Hq) as (rest & Hrest).
  apply (IH _ rest Hcs Hrest). by apply (call_saturates c s queue).
Qed.

Lemma during_run_not_resets cs :
  forallb during_run cs = true → forallb (λ c, negb (resets c)) cs = true.
Proof.
  induction cs as [|c cs IH]; [done|]. simpl.
  intros H. apply andb_true_iff in H as [Hc Hcs].
  rewrite (IH Hcs), andb_true_r. by destruct c.
Qed.

Lemma prefix_positions (l1 l2 l : list Worker) :
  l1 ++ l2 = l → l1 = take (length l1) l ∧ l2 = drop (length l1) l.
Proof. intros <-. by rewrite take_app_length, drop_app_length. Qed.

(** C7: [start] puts the factory's list [w1, .., wM] in the queue in that
    order and fills the free slots from its front.  Whatever [update] and
    [run_jobs] calls follow, for whichever workers and in whichever order:
    the workers whose handle has been started so far are, in the order of
    the starts, exactly the first k of the list, and the queue holds the
    remaining ones in list order; so whenever wj has been started, every
    wi with i < j has been started at an earlier position.  Starting a
    worker goes with moving it: [start] and every later call append to the
    running list exactly the workers they start, in start order, each
    started worker has a handle in the mapping, and a worker stays queued
    only while no slot is free. *)
Theorem dispatch_order_is_fifo self ws cs :
  ws ≠ [] → forallb during_run cs = true →
  let r := start (Some ws) self in
  let r' := calls cs (state_of r) in
  let log := log_of r ++ r'.2 in
  let k := length (started log) in
  result_of r = Returned tt ∧
  started log = take k ws ∧
  _pending_workers r'.1 = Some (drop k ws) ∧
  (∀ i j wj, i < j → started log !! j = Some wj →
     ws !! j = Some wj ∧
     ∃ wi, ws !! i = Some wi ∧ started log !! i = Some wi) ∧
  length (started (log_of r)) =
    Nat.min (Z.to_nat (available self)) (length ws) ∧
  _running_workers (state_of r) = _running_workers self ++ started (log_of r) ∧
  (∀ cs1 c cs2, cs = cs1 ++ c :: cs2 →
     let s := (calls cs1 (state_of r)).1 in
     _running_workers (state_of (call c s)) =
       match c with
       | CallUpdate w => list_remove_first w (_running_workers s)
       | _ => _running_workers s
       end ++ started (log_of (call c s))) ∧
  (∀ w, w ∈ started log → is_Some (_running_threads r'.1 !! w)) ∧
  (pending_count r'.1 = 0 ∨ (available r'.1 <= 0)%Z).
Proof.
  intros Hne Hcs. simpl.
  pose proof (calls_handle_iff (CallStart (Some ws) :: cs) self) as Hhandles.
  cbn [calls call] in Hhandles.
  rewrite start_workers in * by done.
  set (self1 := set_pending_workers (Some ws) self) in *.
  destruct (run_jobs_fifo self1 ws eq_refl) as (Hres & mid & Hmid & Hsplit).
  destruct (calls_fifo cs _ mid Hcs Hmid) as (rest & Hrest & Hsplit').
  set (r := run_jobs self1) in *.
  set (r' := calls cs (state_of r)) in *.
  assert (Hall : started (log_of r ++ r'.2) ++ rest = ws).
  { rewrite started_app, <- app_assoc, Hsplit'. exact Hsplit. }
  apply prefix_positions in Hall as [Htake Hdrop].
  split; [exact Hres|]. split; [exact Htake|].
  split; [by rewrite Hrest, Hdrop|]. split.
  { intros i j wj Hij Hj.
    pose proof (lookup_lt_Some _ _ _ Hj) as Hjk.
    assert (Hpos : ∀ n, n < length (started (log_of r ++ r'.2)) →
                        started (log_of r ++ r'.2) !! n = ws !! n).
    { intros n Hn. rewrite Htake at 1. by apply lookup_take_lt. }
    split; [by rewrite <- Hpos|].
    destruct (lookup_lt_is_Some_2 (started (log_of r ++ r'.2)) i) as [wi Hi];
      [lia|].
    exists wi. split; [|exact Hi]. rewrite <- Hpos by lia. exact Hi. }
  split.
  { destruct (run_jobs_queue self1 ws eq_refl)
      as (s' & lg & Hrun & _ & _ & _ & _ & Hlog & _).
    subst r. rewrite Hrun. unfold log_of. simpl.
    rewrite Hlog, length_take. unfold moved.
    change (available self1) with (available self). lia. }
  split; [apply (run_jobs_effect self1)|]. split.
  { intros cs1 c cs2 Hcs12. simpl.
    assert (Hc : during_run c = true).
    { rewrite Hcs12, forallb_app in Hcs. simpl in Hcs.
      apply andb_true_iff in Hcs as [_ Hcs].
      by apply andb_true_iff in Hcs as [Hc _]. }
    destruct c; try discriminate; simpl.
    - apply run_jobs_effect.
    - apply update_effect. }
  split.
  { intros w Hw. apply Hhandles; [|by right].
    simpl. by apply during_run_not_resets. }
  apply (calls_saturated cs _ mid Hcs Hmid).
  by apply (run_jobs_saturates self1 ws).
Qed.

Lemma dispatch_order_is_fifo_witness :
  let cs := [CallUpdate 3; CallUpdate 1; CallRunJobs; CallUpdate 2] in
  let r := start (Some [1; 2; 3]) (new 1) in
  let r' := calls cs (state_of r) in
  let log := log_of r ++ r'.2 in
  let k := length (started log) in
  result_of r = Returned tt ∧
  started log = take k [1; 2; 3] ∧
  _pending_workers r'.1 = Some (drop k [1; 2; 3]) ∧
  (∀ i j wj, i < j → started log !! j = Some wj →
     [1; 2; 3] !! j = Some wj ∧
     ∃ wi, [1; 2; 3] !! i = Some wi ∧ started log !! i = Some wi) ∧
  length (started (log_of r)) =
    Nat.min (Z.to_nat (available (new 1))) (length [1; 2; 3]) ∧
  _running_workers (state_of r) =
    _running_workers (new 1) ++ started (log_of r) ∧
  (∀ cs1 c cs2, cs = cs1 ++ c :: cs2 →
     let s := (calls cs1 (state_of r)).1 in
     _running_workers (state_of (call c s)) =
       match c with
       | CallUpdate w => list_remove_first w (_running_workers s)
       | _ => _running_workers s
       end ++ started (log_of (call c s))) ∧
  (∀ w, w ∈ started log → is_Some (_running_threads r'.1 !! w)) ∧
  (pending_count r'.1 = 0 ∨ (available r'.1 <= 0)%Z).
Proof.
  apply (dispatch_order_is_fifo (new 1) [1; 2; 3]
           [CallUpdate 3; CallUpdate 1; CallRunJobs; CallUpdate 2]).
  - discriminate.
  - reflexivity.
Defined.

(** With one slot the three workers are started one after the other, each
    on the completion of the one before; with two slots completions in a
    different order do not change the order of the starts. *)
Example dispatch_regardless_of_completion_order :
  started (log_of (start (Some [1; 2; 3]) (new 1))) = [1] ∧
  started (calls [CallStart (Some [1; 2; 3]); CallUpdate 1; CallUpdate 2]
                 (new 1)).2 = [1; 2; 3] ∧
  started (calls [CallStart (Some [1; 2; 3; 4]); CallUpdate 2; CallUpdate 1]
                 (new 2)).2 = [1; 2; 3; 4] ∧
  started (calls [CallStart (Some [1; 2; 3; 4]); CallUpdate 1; CallUpdate 2]
                 (new 2)).2 = [1; 2; 3; 4].
Proof. repeat split. Qed.
